(** * hcunit: policy test discovery, evaluation and aggregation

    A shallow embedding of [pkg/commands] (the [eval] command and the
    helpers it calls) together with the properties stated for it.

    Go maps are [gmap]s.  A [for k, v := range m] loop walks the map in an
    order the language leaves open; every such loop below takes its order
    from a [RangeOrder], any function that lists the entries of the map
    exactly once.  External collaborators (the YAML codec, the Helm
    renderer, the OPA loader and evaluator, the file system) are the fields
    of an [Env]. *)

From Stdlib Require Import ZArith Ascii String.
From stdpp Require Import gmap strings list fin_maps.

#[local] Set Warnings "-register-all".
#[local] Open Scope string_scope.
#[local] Open Scope Z_scope.
#[local] Open Scope list_scope.

(** ** Go runtime pieces used by the package *)

(** Go's [int] on the 64-bit targets the tool is built for. *)
Definition int_wrap (z : Z) : Z := (z + 2 ^ 63) mod 2 ^ 64 - 2 ^ 63.

Definition int_add (a b : Z) : Z := int_wrap (a + b).

(** [strings.HasPrefix(s, prefix)]: does [s] begin with [prefix]. *)
Definition HasPrefix (s prefix : string) : bool := String.prefix prefix s.

(** [os.IsPathSeparator] on the Unix targets. *)
Definition IsPathSeparator (c : ascii) : bool := Ascii.eqb c "/"%char.

(** [filepath.Ext]: the suffix starting at the last dot of the last path
    element, empty when that element has no dot.  The library scans from the
    end; [ext_scan] scans from the front and keeps the latest candidate. *)
Fixpoint ext_scan (path : string) (found : string) : string :=
  match path with
  | EmptyString => found
  | String c rest =>
      if IsPathSeparator c then ext_scan rest ""
      else if Ascii.eqb c "."%char then ext_scan rest path
      else ext_scan rest found
  end.

Definition Ext (path : string) : string := ext_scan path "".

(** Drop the trailing separators of a path; [strip_rev] works on the
    reversed text. *)
Fixpoint strip_rev (r : string) : string :=
  match r with
  | String c rest => if IsPathSeparator c then strip_rev rest else r
  | EmptyString => EmptyString
  end.

(** The text after the last separator. *)
Fixpoint last_element (path : string) (cur : string) : string :=
  match path with
  | EmptyString => String.rev cur
  | String c rest =>
      if IsPathSeparator c then last_element rest ""
      else last_element rest (String c cur)
  end.

(** [filepath.Base]. *)
Definition Base (path : string) : string :=
  if String.eqb path "" then "."
  else
    let stripped := String.rev (strip_rev (String.rev path)) in
    let elem := last_element stripped "" in
    if String.eqb elem "" then "/" else elem.

(** [strings.Split(s, sep)] for a non-empty separator: cut at every
    occurrence of [sep], left to right, occurrences not overlapping.
    [skip] counts the characters of a separator still to be dropped and
    [cur] is the current piece, reversed. *)
Fixpoint split_go (sep : string) (skip : nat) (cur : string) (s : string)
  : list string :=
  match s with
  | EmptyString => [String.rev cur]
  | String c rest =>
      match skip with
      | S n => split_go sep n cur rest
      | O =>
          if String.prefix sep s
          then String.rev cur :: split_go sep (String.length sep - 1) "" rest
          else split_go sep O (String c cur) rest
      end
  end.

Definition Split (s sep : string) : list string := split_go sep O "" s.

Definition is_go_space (c : ascii) : bool :=
  match nat_of_ascii c with
  | 9%nat | 10%nat | 11%nat | 12%nat | 13%nat | 32%nat => true
  | _ => false
  end.

Fixpoint trim_left (s : string) : string :=
  match s with
  | String c rest => if is_go_space c then trim_left rest else s
  | EmptyString => EmptyString
  end.

(** [strings.TrimSpace] on ASCII text (the white space of the wider
    Unicode table is outside this model). *)
Definition TrimSpace (s : string) : string :=
  String.rev (trim_left (String.rev (trim_left s))).

(** ** Iteration order of [range] over a map *)

Record RangeOrder (A : Type) := MkRange {
  range :> gmap string A → list (string * A);
  range_perm : ∀ m, range m ≡ₚ map_to_list m
}.
Arguments MkRange {A} _ _.
Arguments range {A} _ _.
Arguments range_perm {A} _ _.

Definition range_forward {A} : RangeOrder A :=
  MkRange map_to_list (λ m, reflexivity (map_to_list m)).

Definition range_backward {A} : RangeOrder A :=
  MkRange (λ m, reverse (map_to_list m))
          (λ m, reverse_Permutation (map_to_list m)).

(** ** Documents *)

(** What [yaml.Unmarshal] stores in an [interface{}], and what the
    normalizer adds: raw text and sequences of documents. *)
Inductive Value :=
| VNil
| VBool (b : bool)
| VInt (n : Z)
| VStr (s : string)
| VSeq (xs : list Value)
| VMap (m : gmap string Value)
| VGenMap (kvs : list (Value * Value)).

(** ** Errors *)

Inductive error :=
| FilepathValueEmpty
| FilepathDirUnexpected
| UnmatchedQuery
| InvalidPolicyPath
| PolicyFailure
| DuplicatePolicyFailure
| External (msg : string)
| Errorf (context : string) (cause : error).

Abbreviation Res A := (error + A)%type.


(** ** The policy engine's interface *)

(** A rule head as the loader's static analysis reports it: the name and,
    when the rule has one, the text of its key term. *)
Record Head := MkHead { Name : string; Key : option string }.

Record Rule := MkRule { RuleHead : Head }.

Record Module := MkModule { Rules : list Rule }.

(** One evaluated expression of a result, and one result. *)
Record Expression := MkExpression { Text : string; ExprValue : Value }.

Record Result := MkResult {
  Expressions : list Expression;
  Bindings : gmap string Value
}.

(** Outcome of [rego.New(...).PrepareForEval] followed by [Eval]: the
    first can fail, then the second, else there is a result set and the
    trace the buffer tracer collected. *)
Inductive EngineResponse :=
| PrepareFailed (e : error)
| EvalFailed (e : error)
| Evaluated (resultSet : list Result) (trace : list string).

(** ** External collaborators *)

Record Env := MkEnv {
  (* file system *)
  ReadFile : string → Res string;
  Open : string → Res unit;
  (* gopkg.in/yaml.v3 *)
  yamlUnmarshal : string → Res Value;
  yamlUnmarshalMap : string → Res (gmap string Value);
  yamlMarshal : gmap string Value → Res string;
  (* filepath.Walk with the files it opens, and Helm's renderutil.Render *)
  walkFiles : string → Res (gmap string string);
  helmRender : string → gmap string string → Res (gmap string string);
  (* OPA: tester.Load returns the modules in the order the loop over them
     will visit, or fails and returns none *)
  testerLoad : string → Res (list Module);
  (* OPA: a query on a policy file against an input document *)
  regoEval : string → string → Value → EngineResponse;
  (* how each range loop over a map walks it *)
  rangeQueries : RangeOrder Z;
  rangeReport : RangeOrder bool;
  rangeFiles : RangeOrder string
}.

(** ** Values merger *)

Definition valuesHashName : string := "values".

(** One step of the second loop of [mergeMaps]; [self] is the function
    itself, called on the two mappings that collide. *)
Definition mergeEntry (self : Value → gmap string Value → gmap string Value)
    (k : string) (v : Value) (out : gmap string Value) : gmap string Value :=
  match v with
  | VMap _ =>
      match out !! k with
      | Some (VMap bv) => <[k := VMap (self v bv)]> out
      | _ => <[k := v]> out
      end
  | _ => <[k := v]> out
  end.

(** [mergeInto (VMap b) a] is [mergeMaps a b]: the recursion descends
    through the values of [b].  The first loop copies [a] into [out]. *)
Fixpoint mergeInto (vb : Value) (a : gmap string Value) {struct vb}
  : gmap string Value :=
  match vb with
  | VMap b => map_fold (mergeEntry mergeInto) a b
  | _ => a
  end.

Definition mergeMaps (a b : gmap string Value) : gmap string Value :=
  mergeInto (VMap b) a.

(** [readFile]: the path [-] reads standard input to its end, which
    leaves nothing for a later read. *)
Definition readFile (E : Env) (filePath : string) (stdin : string)
  : Res string * string :=
  if String.eqb (TrimSpace filePath) "-" then (inr stdin, "")
  else (ReadFile E filePath, stdin).

Fixpoint mergeValuesFrom (E : Env) (valueFiles : list string)
    (base : gmap string Value) (stdin : string)
  : Res (gmap string Value) * string :=
  match valueFiles with
  | [] => (inr base, stdin)
  | filePath :: rest =>
      let '(read, stdin) := readFile E filePath stdin in
      match read with
      | inl err => (inl err, stdin)
      | inr bytes =>
          match yamlUnmarshalMap E bytes with
          | inl err =>
              (inl (Errorf ("failed to parse " +:+ filePath +:+ ": ") err),
               stdin)
          | inr currentMap =>
              mergeValuesFrom E rest (mergeMaps base currentMap) stdin
          end
      end
  end.

Definition mergeValues (E : Env) (valueFiles : list string) (stdin : string)
  : Res (gmap string Value) * string :=
  mergeValuesFrom E valueFiles ∅ stdin.

(** ** Rendering *)

Definition WalkTemplatePath (E : Env) (templatePath : string)
  : Res (gmap string string) :=
  match walkFiles E templatePath with
  | inl err => inl (Errorf ("error walking the path " +:+ templatePath) err)
  | inr templates => inr templates
  end.

Definition render (E : Env) (values : string) (templates : gmap string string)
  : Res (gmap string string) :=
  helmRender E values templates.

Definition validateAndRender (E : Env) (templatePath : string)
    (valuesMap : gmap string Value) : Res (gmap string string) :=
  match WalkTemplatePath E templatePath with
  | inl err => inl (Errorf "template validation failed: " err)
  | inr templateFiles =>
      match yamlMarshal E valuesMap with
      | inl err => inl (Errorf "couldnt marshal values: " err)
      | inr values => render E values templateFiles
      end
  end.

(** ** Manifest normalizer *)

Definition newline : string := String "010"%char EmptyString.

Definition documentSeparator : string := newline +:+ "---" +:+ newline.

(** The inner loop of [UnmarshalYamlMap]: parse every chunk, keep the
    ones that are not nil, in order. *)
Fixpoint parseDocuments (E : Env) (documents : list string)
    (configDocs : list Value) : Res (list Value) :=
  match documents with
  | [] => inr configDocs
  | doc :: rest =>
      match yamlUnmarshal E doc with
      | inl err => inl err
      | inr VNil => parseDocuments E rest configDocs
      | inr config => parseDocuments E rest (configDocs ++ [config])
      end
  end.

Definition isYamlPath (fpath : string) : bool :=
  String.eqb (Ext fpath) ".yml" || String.eqb (Ext fpath) ".yaml".

(** The body of the loop over the rendered files. *)
Definition normalizeFile (E : Env) (fpath template : string)
    (out : gmap string Value) : Res (gmap string Value) :=
  if isYamlPath fpath then
    match parseDocuments E (Split template documentSeparator) [] with
    | inl err => inl (Errorf ("Unmarshal '" +:+ fpath +:+ "' failed: ") err)
    | inr configDocs =>
        let out :=
          if Nat.ltb 1 (length configDocs)
          then <[Base fpath := VSeq configDocs]> out else out in
        let out :=
          if Nat.eqb (length configDocs) 1
          then match configDocs with
               | first :: _ => <[Base fpath := first]> out
               | [] => out
               end
          else out in
        inr out
    end
  else inr (<[Base fpath := VStr template]> out).

Fixpoint normalizeFiles (E : Env) (files : list (string * string))
    (out : gmap string Value) : Res (gmap string Value) :=
  match files with
  | [] => inr out
  | (fpath, template) :: rest =>
      match normalizeFile E fpath template out with
      | inl err => inl err
      | inr out => normalizeFiles E rest out
      end
  end.

Definition UnmarshalYamlMap (E : Env) (rendered : gmap string string)
  : Res (gmap string Value) :=
  normalizeFiles E (rangeFiles E rendered) ∅.

(** ** Test discovery *)

Definition is_letter (c : ascii) : bool :=
  let n := nat_of_ascii c in
  (Nat.leb 65 n && Nat.leb n 90) || (Nat.leb 97 n && Nat.leb n 122).

(** The tail of [expectQuery] after the literal [expect]: groups of an
    underscore and one or more letters, up to the end.  [in_group] says
    that the last character read was a letter of a group; [after_bar]
    that it was the underscore opening one. *)
Fixpoint expect_groups (after_bar in_group : bool) (s : string) : bool :=
  match s with
  | EmptyString => negb after_bar
  | String c rest =>
      if Ascii.eqb c "_"%char
      then negb after_bar && expect_groups true false rest
      else is_letter c && (after_bar || in_group)
           && expect_groups false true rest
  end.

(** The package variable [expectQuery], the compiled pattern
    [^expect(_[a-zA-Z]+)*$], as the predicate its [MatchString] would
    be.  No function of the package consults it. *)
Definition expectQuery (s : string) : bool :=
  String.prefix "expect" s
  && expect_groups false false (String.substring 6 (String.length s - 6) s).

(** [%s] of the head key: the text of the term, or what [fmt] prints for
    a nil pointer. *)
Definition formatKey (key : option string) : string :=
  match key with
  | Some text => text
  | None => "<nil>"
  end.

(** [fmt.Sprintf("%s[%s]", rule.Head.Name, rule.Head.Key)]. *)
Definition testIdentifier (h : Head) : string :=
  Name h +:+ "[" +:+ formatKey (Key h) +:+ "]".

(** The condition of the [if] in [getQueryList], arguments in the order
    the source passes them. *)
Definition qualifies (rule : Rule) : bool :=
  HasPrefix "expect[" (Name (RuleHead rule))
  || HasPrefix "assert[" (Name (RuleHead rule)).

(** [res[id] += 1]. *)
Definition increment (res : gmap string Z) (id : string) : gmap string Z :=
  <[id := int_add (default 0 (res !! id)) 1]> res.

Definition countRule (res : gmap string Z) (rule : Rule) : gmap string Z :=
  if qualifies rule then increment res (testIdentifier (RuleHead rule))
  else res.

Definition countModule (res : gmap string Z) (module : Module) : gmap string Z :=
  foldl countRule res (Rules module).

(** [mods, _, _ := tester.Load(...)]: the error is dropped. *)
Definition loadedModules (E : Env) (policy : string) : list Module :=
  match testerLoad E policy with
  | inr mods => mods
  | inl _ => []
  end.

Definition getQueryList (E : Env) (policy : string) : gmap string Z :=
  foldl countModule ∅ (loadedModules E policy).

(** ** Query evaluation and aggregation *)

(** What the function prints on standard output. *)
Inductive Printed :=
| DuplicateBanner
| DuplicateKey (querySuffix : string)
| PassLine (testname : string)
| FailLine (testname : string)
| FailureBanner
| SuccessBanner.

(** The text of each, colour markup as in the source. *)
Definition printedText (p : Printed) : string :=
  match p with
  | DuplicateBanner =>
      "[red]ERROR: you are using duplicate test names or variables. This could cause test failures to NOT be detected properly"
  | DuplicateKey querySuffix => "[yellow]DUPLICATE KEY: " +:+ querySuffix
  | PassLine testname => "[green]PASS: " +:+ testname
  | FailLine testname => "[red]FAIL: " +:+ testname
  | FailureBanner =>
      "[_red_][FAILURE] Policy violations found on the Helm Chart!"
  | SuccessBanner =>
      "[green][SUCCESS] Your Helm Chart complies with all policies!"
  end.

(** The variables of [evalPolicyOnInput] and its effects: the queries
    handed to the engine (with their input), standard output, and what
    went to [writer]. *)
Record EvalState := MkEvalState {
  testResults : gmap string bool;
  results : list Result;
  engineCalls : list (string * Value);
  stdout : list Printed;
  written : list string
}.

Definition initialState : EvalState := MkEvalState ∅ [] [] [] [].

Definition print (p : list Printed) (st : EvalState) : EvalState :=
  MkEvalState (testResults st) (results st) (engineCalls st)
              (stdout st ++ p) (written st).

Definition called (queryString : string) (input : Value) (st : EvalState)
  : EvalState :=
  MkEvalState (testResults st) (results st)
              (engineCalls st ++ [(queryString, input)])
              (stdout st) (written st).

(** [fmt.Sprintf("data.%s.%s", namespace, querySuffix)]. *)
Definition queryStringOf (namespace querySuffix : string) : string :=
  "data." +:+ namespace +:+ "." +:+ querySuffix.

(** The two nested loops over the result set, after
    [testResults[queryString] = false]. *)
Definition markExpression (queryString : string) (tr : gmap string bool)
    (expression : Expression) : gmap string bool :=
  if String.eqb (Text expression) queryString
  then <[queryString := true]> tr else tr.

Definition markResult (queryString : string) (tr : gmap string bool)
    (result : Result) : gmap string bool :=
  foldl (markExpression queryString) tr (Expressions result).

Definition classify (queryString : string) (resultSet : list Result)
    (tr : gmap string bool) : gmap string bool :=
  foldl (markResult queryString) (<[queryString := false]> tr) resultSet.

(** The part of the loop body after a successful [Eval]. *)
Definition recordResult (queryString : string) (resultSet : list Result)
    (trace : list string) (st : EvalState) : EvalState :=
  MkEvalState (classify queryString resultSet (testResults st))
              (if Nat.ltb 0 (length resultSet)
               then results st ++ resultSet else results st)
              (engineCalls st) (stdout st) (written st ++ trace).

(** The loop over the discovered tests, in the order [queries] lists
    them; it ends early with the error it returns. *)
Fixpoint evalLoop (E : Env) (policy namespace : string) (input : Value)
    (queries : list (string * Z)) (st : EvalState)
  : EvalState * option error :=
  match queries with
  | [] => (st, None)
  | (querySuffix, querymatches) :: rest =>
      if 1 <? querymatches then
        (print [DuplicateBanner; DuplicateKey querySuffix] st,
         Some DuplicatePolicyFailure)
      else
        let queryString := queryStringOf namespace querySuffix in
        let st := called queryString input st in
        match regoEval E policy queryString input with
        | PrepareFailed err =>
            (st, Some (Errorf "failed preparing for eval on policies: " err))
        | EvalFailed err =>
            (st, Some (Errorf "failed eval on policies: " err))
        | Evaluated resultSet trace =>
            evalLoop E policy namespace input rest
                     (recordResult queryString resultSet trace st)
        end
  end.

(** The report loop; the second component is [testFailed]. *)
Fixpoint reportLoop (tests : list (string * bool)) (testFailed : bool)
  : list Printed * bool :=
  match tests with
  | [] => ([], testFailed)
  | (testname, passed) :: rest =>
      if passed then
        let '(lines, failed) := reportLoop rest testFailed in
        (PassLine testname :: lines, failed)
      else
        let '(lines, failed) := reportLoop rest true in
        (FailLine testname :: lines, failed)
  end.

(** [evalPolicyOnInput] from the point where [queryList] is known. *)
Definition evalQueryList (E : Env) (policy namespace : string)
    (input : Value) (queryList : gmap string Z)
  : EvalState * option error :=
  match evalLoop E policy namespace input (rangeQueries E queryList)
                 initialState with
  | (st, Some err) => (st, Some err)
  | (st, None) =>
      if Nat.leb (size queryList) 0 then (st, Some UnmatchedQuery)
      else
        let '(lines, testFailed) :=
          reportLoop (rangeReport E (testResults st)) false in
        if testFailed
        then (print (lines ++ [FailureBanner]) st, Some PolicyFailure)
        else (print (lines ++ [SuccessBanner]) st, None)
  end.

Definition evalPolicyOnInput (E : Env) (policy namespace : string)
    (input : Value) : EvalState * option error :=
  evalQueryList E policy namespace input (getQueryList E policy).

(** ** The command *)

Inductive WriterKind := StandardOutput | DiscardBuffer | Supplied.

Record EvalCommand := MkEvalCommand {
  Writer : option WriterKind;
  Template : string;
  Values : list string;
  Policy : string;
  Namespace : string;
  Verbose : bool
}.

Definition setDefaults (s : EvalCommand) : EvalCommand :=
  let writer :=
    match Writer s with
    | None => Some StandardOutput
    | w => w
    end in
  let writer := if Verbose s then writer else Some DiscardBuffer in
  let namespace :=
    if String.eqb (Namespace s) "" then "main" else Namespace s in
  MkEvalCommand writer (Template s) (Values s) (Policy s) namespace
                (Verbose s).

Definition failed (err : error) : EvalState * option error :=
  (initialState, Some err).

Definition Execute (E : Env) (s : EvalCommand) (stdin : string)
  : EvalState * option error :=
  let s := setDefaults s in
  if String.eqb (Policy s) "" then failed InvalidPolicyPath
  else
    match Open E (Policy s) with
    | inl _ => failed InvalidPolicyPath
    | inr _ =>
        match fst (mergeValues E (Values s) stdin) with
        | inl err => failed (Errorf "failed merging values files " err)
        | inr valuesConfig =>
            match validateAndRender E (Template s) valuesConfig with
            | inl err => failed (Errorf "error while rendering: " err)
            | inr renderedOutput =>
                match UnmarshalYamlMap E renderedOutput with
                | inl err =>
                    failed (Errorf "formatting policy input failed: " err)
                | inr policyInput =>
                    let policyInput :=
                      <[valuesHashName := VMap valuesConfig]> policyInput in
                    evalPolicyOnInput E (Policy s) (Namespace s)
                                      (VMap policyInput)
                end
            end
        end
    end.

(** ** Vocabulary of the statements *)

(** Some result of the set has an expression whose text is the query. *)
Definition passes (queryString : string) (resultSet : list Result) : bool :=
  existsb (λ result,
             existsb (λ expression, String.eqb (Text expression) queryString)
                     (Expressions result))
          resultSet.

(** The engine answers the query for a discovered test with a result
    set. *)
Definition evaluates (E : Env) (policy namespace : string) (input : Value)
    (querySuffix : string) : bool :=
  match regoEval E policy (queryStringOf namespace querySuffix) input with
  | Evaluated _ _ => true
  | _ => false
  end.

(** PASS or FAIL of a query string, from the engine's answer to it. *)
Definition outcome (E : Env) (policy : string) (input : Value)
    (queryString : string) : bool :=
  match regoEval E policy queryString input with
  | Evaluated resultSet _ => passes queryString resultSet
  | _ => false
  end.

(** The tests whose query the loop hands to the engine, in order: it
    stops at the first count above one and after the first query the
    engine rejects. *)
Fixpoint visited (E : Env) (policy namespace : string) (input : Value)
    (queries : list (string * Z)) : list string :=
  match queries with
  | [] => []
  | (querySuffix, querymatches) :: rest =>
      if 1 <? querymatches then []
      else querySuffix ::
           (if evaluates E policy namespace input querySuffix
            then visited E policy namespace input rest else [])
  end.

(** An entry the loop passes without returning. *)
Definition passable (E : Env) (policy namespace : string) (input : Value)
    (entry : string * Z) : bool :=
  (snd entry <=? 1) && evaluates E policy namespace input (fst entry).

(** The run succeeded: [evalPolicyOnInput] returned [nil]. *)
Definition succeeded (run : EvalState * option error) : bool :=
  match snd run with
  | None => true
  | Some _ => false
  end.

Definition reportLine (test : string * bool) : Printed :=
  if snd test then PassLine (fst test) else FailLine (fst test).

(** The same collaborators with other iteration orders. *)
Definition withOrders (E : Env) (queries : RangeOrder Z)
    (report : RangeOrder bool) : Env :=
  MkEnv (ReadFile E) (Open E) (yamlUnmarshal E) (yamlUnmarshalMap E)
        (yamlMarshal E) (walkFiles E) (helmRender E) (testerLoad E)
        (regoEval E) queries report (rangeFiles E).

(** What [testResults] holds after a loop that ran to its end: for every
    discovered test, its query string and the outcome of that query. *)
Definition expectedResults (E : Env) (policy namespace : string)
    (input : Value) (queryList : gmap string Z) : list (string * bool) :=
  map (λ e : string * Z,
         (queryStringOf namespace (fst e),
          outcome E policy input (queryStringOf namespace (fst e))))
      (map_to_list queryList).

(** ** Sample collaborators *)

(** A rule with a key, as in [expect[minReplicas] { ... }]. *)
Definition keyedRule (name key : string) : Rule :=
  MkRule (MkHead name (Some key)).

(** A codec that reads an empty chunk as nil, flags a chunk starting with
    a tab, and takes anything else as a plain scalar. *)
Definition sampleUnmarshal (doc : string) : Res Value :=
  match doc with
  | EmptyString => inr VNil
  | String c _ =>
      if Ascii.eqb c "009"%char
      then inl (External "found character that cannot start any token")
      else inr (VStr doc)
  end.

(** A chart rendered to a manifest of three chunks, the middle one
    empty, a manifest of one chunk, an empty manifest and a text file. *)
Definition sampleRendered : gmap string string :=
  {[ "chart/templates/multi.yaml" :=
       "kind: Service" +:+ documentSeparator +:+ documentSeparator
       +:+ "kind: Deployment";
     "chart/templates/single.yml" := "replicas: 3";
     "chart/templates/empty.yaml" := "";
     "chart/templates/NOTES.txt" := "installed" ]}.

(** What the normalizer makes of [sampleRendered]. *)
Definition sampleNormalized : gmap string Value :=
  {[ "multi.yaml" := VSeq [VStr "kind: Service"; VStr "kind: Deployment"];
     "single.yml" := VStr "replicas: 3";
     "NOTES.txt" := VStr "installed" ]}.

(** Collaborators with one values file, the chart above, the given
    outcome of loading any policy path, and the given engine. *)
Definition sampleEnv (loaded : Res (list Module))
    (engine : string → EngineResponse)
    (queries : RangeOrder Z) (report : RangeOrder bool) : Env :=
  MkEnv (λ path, if String.eqb path "values.yaml" then inr "replicas: 3"
                 else inl (External "no such file"))
        (λ _, inr tt)
        sampleUnmarshal
        (λ bytes, if String.eqb bytes "" then inr ∅
                  else inr {[ "replicas" := VInt 3 ]})
        (λ _, inr "replicas: 3")
        (λ _, inr {[ "chart/templates/single.yml" := "replicas: {{ .Values.replicas }}" ]})
        (λ _ _, inr sampleRendered)
        (λ _, loaded)
        (λ _ query _, engine query)
        queries report range_forward.

(** An engine that finds every rule undefined, and one that cannot
    evaluate anything. *)
Definition emptyEngine (query : string) : EngineResponse := Evaluated [] [].

Definition brokenEngine (query : string) : EngineResponse :=
  EvalFailed (External "eval_internal_error").

(** An engine under which exactly the listed queries hold. *)
Definition engineOf (holding : list string) (query : string)
  : EngineResponse :=
  if bool_decide (query ∈ holding)
  then Evaluated [MkResult [MkExpression query (VBool true)] ∅] ["Enter"]
  else Evaluated [] ["Enter"; "Fail"].

(** One rule [expect[a]] and two rules [expect[b]]. *)
Definition duplicatedModules : list Module :=
  [MkModule [keyedRule "expect" "a"; keyedRule "expect" "b"];
   MkModule [keyedRule "expect" "b"]].

(** A module without tests. *)
Definition helperModules : list Module :=
  [MkModule [keyedRule "helper" "c"; keyedRule "deny" "msg"]].

(** Rules [expect[a]] and [assert[b]], once each. *)
Definition twoTestModules : list Module :=
  [MkModule [keyedRule "expect" "a"; keyedRule "assert" "b";
             keyedRule "helper" "c"]].

(** The naming grammar of the specification,
    [^(expect|assert)(_[A-Za-z]+)*$]. *)
Definition reservedGrammar (s : string) : bool :=
  (String.prefix "expect" s || String.prefix "assert" s)
  && expect_groups false false (String.substring 6 (String.length s - 6) s).

(** The rule qualifies and its identifier is [id]. *)
Definition discoveredAs (id : string) (rule : Rule) : bool :=
  qualifies rule && String.eqb (testIdentifier (RuleHead rule)) id.

(** How many rules of the loaded modules are discovered as [id]. *)
Definition occurrences (E : Env) (policy id : string) : nat :=
  length (List.filter (discoveredAs id)
                      (concat (map Rules (loadedModules E policy)))).

(** All the prefixes of a text, the empty one first. *)
Fixpoint prefixes (s : string) : list string :=
  match s with
  | EmptyString => [""]
  | String c rest => "" :: map (String c) (prefixes rest)
  end.

(** The override documents of a run, read and parsed one after the other
    up to the first failure. *)
Fixpoint readDocuments (E : Env) (valueFiles : list string) (stdin : string)
  : Res (list (gmap string Value)) :=
  match valueFiles with
  | [] => inr []
  | filePath :: rest =>
      let '(read, stdin) := readFile E filePath stdin in
      match read with
      | inl err => inl err
      | inr bytes =>
          match yamlUnmarshalMap E bytes with
          | inl err =>
              inl (Errorf ("failed to parse " +:+ filePath +:+ ": ") err)
          | inr document =>
              match readDocuments E rest stdin with
              | inl err => inl err
              | inr documents => inr (document :: documents)
              end
          end
      end
  end.

(** Merging by the words of the specification: on a key of both
    documents two mappings merge, anything else is replaced by the
    incoming value; other keys are kept. *)
Definition mergedAt (merge : gmap string Value → gmap string Value
                             → gmap string Value)
    (existing incoming : option Value) : option Value :=
  match existing, incoming with
  | Some (VMap x), Some (VMap y) => Some (VMap (merge x y))
  | _, Some v => Some v
  | old, None => old
  end.

(** Normalizing by the words of the specification.  Every chunk of the
    file is parsed, up to the first failure. *)
Fixpoint parseAll (E : Env) (chunks : list string) : Res (list Value) :=
  match chunks with
  | [] => inr []
  | chunk :: rest =>
      match yamlUnmarshal E chunk with
      | inl err => inl err
      | inr config =>
          match parseAll E rest with
          | inl err => inl err
          | inr configs => inr (config :: configs)
          end
      end
  end.

Definition isNil (v : Value) : bool :=
  match v with
  | VNil => true
  | _ => false
  end.

(** The chunks that remain, in their order. *)
Definition remaining (configs : list Value) : list Value :=
  List.filter (λ v, negb (isNil v)) configs.

(** What is stored for the remaining chunks: one chunk as it is, several
    as their sequence, none at all for none. *)
Definition stored (documents : list Value) : option Value :=
  match documents with
  | [] => None
  | [document] => Some document
  | _ => Some (VSeq documents)
  end.

(** What a rendered file contributes under its base name. *)
Definition normalizedEntry (E : Env) (fpath template : string)
  : Res (option Value) :=
  if isYamlPath fpath then
    match parseAll E (Split template documentSeparator) with
    | inl err => inl err
    | inr configs => inr (stored (remaining configs))
    end
  else inr (Some (VStr template)).

(** The command of the sample runs. *)
Definition sampleCommand : EvalCommand :=
  MkEvalCommand None "chart" ["values.yaml"] "policy.rego" "" false.

(** The input document of the sample runs. *)
Definition sampleInput : Value :=
  VMap (<[valuesHashName := VMap {[ "replicas" := VInt 3 ]}]>
          sampleNormalized).

(** An engine that rejects one query and finds every other rule
    undefined. *)
Definition engineRejecting (rejected : string) (query : string)
  : EngineResponse :=
  if String.eqb query rejected
  then EvalFailed (External "eval_internal_error")
  else Evaluated [] ["Enter"; "Fail"].

(** Two rendered files of one base name, in different directories. *)
Definition collidingRendered : gmap string string :=
  {[ "chart/templates/a/notes.txt" := "first";
     "chart/templates/b/notes.txt" := "second" ]}.

(** ** Further vocabulary *)

(** The error [evalPolicyOnInput] returns for an answer of the engine
    that is no result set. *)
Definition engineError (response : EngineResponse) : option error :=
  match response with
  | PrepareFailed err =>
      Some (Errorf "failed preparing for eval on policies: " err)
  | EvalFailed err => Some (Errorf "failed eval on policies: " err)
  | Evaluated _ _ => None
  end.

(** The trace and the result set of a query, empty when the engine
    rejects it. *)
Definition traceOf (E : Env) (policy : string) (input : Value)
    (queryString : string) : list string :=
  match regoEval E policy queryString input with
  | Evaluated _ trace => trace
  | _ => []
  end.

Definition resultSetOf (E : Env) (policy : string) (input : Value)
    (queryString : string) : list Result :=
  match regoEval E policy queryString input with
  | Evaluated resultSet _ => resultSet
  | _ => []
  end.

(** The rules of all the loaded modules, in the order of the two loops. *)
Definition loadedRules (E : Env) (policy : string) : list Rule :=
  concat (map Rules (loadedModules E policy)).

(** How deep mappings nest in a value. *)
Fixpoint depth (v : Value) : nat :=
  match v with
  | VMap m => S (map_fold (λ _ x acc, Nat.max (depth x) acc) O m)
  | _ => O
  end.

(** The character occurs in the text. *)
Fixpoint occurs (c : ascii) (s : string) : bool :=
  match s with
  | EmptyString => false
  | String a rest => Ascii.eqb a c || occurs c rest
  end.


(** * Properties *)

(** ** Classification of one result set *)

Lemma markResult_keeps queryString (result : Result) (b : bool)
    (tr : gmap string bool) :
  markResult queryString (<[queryString := b]> tr) result
  = <[queryString :=
        b || existsb (λ e, String.eqb (Text e) queryString)
                     (Expressions result)]> tr.
Proof.
  unfold markResult. generalize (Expressions result) as es.
  intros es. revert b. induction es as [|e es IH]; intros b; simpl.
  - by rewrite orb_false_r.
  - unfold markExpression at 2. destruct (String.eqb (Text e) queryString).
    + rewrite insert_insert_eq, IH. by rewrite orb_true_r.
    + rewrite IH. by rewrite orb_false_l.
Qed.

Lemma classify_insert queryString resultSet (tr : gmap string bool) :
  classify queryString resultSet tr
  = <[queryString := passes queryString resultSet]> tr.
Proof.
  unfold classify, passes.
  change (existsb _ resultSet) with
    (false || existsb (λ result,
       existsb (λ e, String.eqb (Text e) queryString) (Expressions result))
       resultSet).
  generalize false as b. induction resultSet as [|r rs IH]; intros b; simpl.
  - by rewrite orb_false_r.
  - rewrite markResult_keeps, IH. by rewrite orb_assoc.
Qed.

Lemma passes_true queryString resultSet :
  passes queryString resultSet = true
  ↔ ∃ result expression,
      result ∈ resultSet ∧ expression ∈ Expressions result
      ∧ Text expression = queryString.
Proof.
  unfold passes. rewrite existsb_exists. split.
  - intros (r & Hr & He). apply existsb_exists in He as (e & He & Ht).
    exists r, e. rewrite !list_elem_of_In. by apply String.eqb_eq in Ht.
  - intros (r & e & Hr & He & Ht). exists r.
    rewrite <- list_elem_of_In. split; [done|].
    apply existsb_exists. exists e. rewrite <- list_elem_of_In.
    split; [done|]. by apply String.eqb_eq.
Qed.

Lemma queryStringOf_inj namespace : Inj (=) (=) (queryStringOf namespace).
Proof.
  intros a b H. unfold queryStringOf in H.
  apply (inj (String.append "data.")) in H.
  apply (inj (String.append namespace)) in H.
  by apply (inj (String.append ".")) in H.
Qed.

(** ** The evaluation loop *)

Section EvalLoop.
Variables (E : Env) (policy namespace : string) (input : Value).

Let loop := evalLoop E policy namespace input.
Let qs := queryStringOf namespace.

Lemma evaluates_true querySuffix :
  evaluates E policy namespace input querySuffix = true
  ↔ ∃ resultSet trace,
      regoEval E policy (qs querySuffix) input = Evaluated resultSet trace.
Proof.
  unfold evaluates, qs.
  destruct (regoEval E policy (queryStringOf namespace querySuffix) input)
    as [e|e|rs tr].
  - split; [done|]. by intros (? & ? & ?).
  - split; [done|]. by intros (? & ? & ?).
  - split; [|done]. intros _. by exists rs, tr.
Qed.

(** The engine is handed exactly the queries of the visited tests. *)
Lemma evalLoop_calls queries st :
  engineCalls (fst (loop queries st))
  = engineCalls st
    ++ map (λ q, (qs q, input)) (visited E policy namespace input queries).
Proof.
  subst loop qs. revert st.
  induction queries as [|[q c] rest IH]; intros st; simpl.
  - by rewrite app_nil_r.
  - destruct (1 <? c); simpl; [by rewrite app_nil_r|].
    unfold evaluates.
    destruct (regoEval E policy (queryStringOf namespace q) input); simpl;
      [done|done|].
    rewrite IH. simpl. by rewrite <- app_assoc.
Qed.

(** The loop runs to its end exactly when every entry is passable. *)
Lemma evalLoop_completes queries st :
  snd (loop queries st) = None
  ↔ forallb (passable E policy namespace input) queries = true.
Proof.
  subst loop qs. revert st.
  induction queries as [|[q c] rest IH]; intros st; simpl; [done|].
  unfold passable at 1, evaluates. simpl.
  destruct (Z.ltb_spec 1 c) as [Hc|Hc].
  - assert ((c <=? 1) = false) as -> by lia. simpl. split; congruence.
  - assert ((c <=? 1) = true) as -> by lia. simpl.
    destruct (regoEval E policy (queryStringOf namespace q) input); simpl;
      [split; congruence..|].
    apply IH.
Qed.

(** When it does, every visited test has its outcome on record and the
    other entries of [testResults] are as before. *)
Lemma evalLoop_testResults queries st k :
  forallb (passable E policy namespace input) queries = true →
  testResults (fst (loop queries st)) !! k
  = if decide (k ∈ map (λ e : string * Z, qs (fst e)) queries)
    then Some (outcome E policy input k)
    else testResults st !! k.
Proof.
  subst loop qs. revert st.
  induction queries as [|[q c] rest IH]; intros st Hall.
  { cbn [map evalLoop fst]. case_decide as Hin; [by apply elem_of_nil in Hin|done]. }
  simpl in Hall. apply andb_true_iff in Hall as [Hq Hrest].
  unfold passable, evaluates in Hq. simpl in Hq.
  apply andb_true_iff in Hq as [Hc Hev].
  cbn [evalLoop]. assert ((1 <? c) = false) as -> by lia.
  destruct (regoEval E policy (queryStringOf namespace q) input)
    as [| |rs tr] eqn:Heng; [done..|].
  rewrite IH by done. cbn [recordResult testResults called map fst].
  rewrite classify_insert.
  destruct (decide (k ∈ map _ rest)) as [Hin|Hout].
  - rewrite decide_True; [done|]. apply elem_of_cons. by right.
  - destruct (decide (k = queryStringOf namespace q)) as [->|Hne].
    + rewrite lookup_insert_eq, decide_True by (apply elem_of_cons; by left).
      unfold outcome. by rewrite Heng.
    + rewrite lookup_insert_ne by done. rewrite decide_False; [done|].
      intros [?|?]%elem_of_cons; done.
Qed.

(** Nothing is printed by a loop that runs to its end; a loop that stops
    on a duplicate prints its two lines. *)
Lemma evalLoop_stdout_complete queries st :
  snd (loop queries st) = None → stdout (fst (loop queries st)) = stdout st.
Proof.
  subst loop qs. revert st.
  induction queries as [|[q c] rest IH]; intros st; simpl; [done|].
  destruct (1 <? c); simpl; [done|].
  destruct (regoEval E policy (queryStringOf namespace q) input); simpl;
    [done..|].
  intros H. by rewrite IH.
Qed.

Lemma evalLoop_duplicate pre querySuffix querymatches post st :
  forallb (passable E policy namespace input) pre = true →
  1 < querymatches →
  let run := loop (pre ++ (querySuffix, querymatches) :: post) st in
  snd run = Some DuplicatePolicyFailure
  ∧ stdout (fst run)
    = stdout st ++ [DuplicateBanner; DuplicateKey querySuffix]
  ∧ engineCalls (fst run)
    = engineCalls st ++ map (λ e : string * Z, (qs (fst e), input)) pre.
Proof.
  subst loop qs. revert st.
  induction pre as [|[q c] pre IH]; intros st Hpre Hdup; simpl in *.
  - assert ((1 <? querymatches) = true) as -> by lia. simpl.
    by rewrite app_nil_r.
  - apply andb_true_iff in Hpre as [Hq Hpre].
    unfold passable, evaluates in Hq. simpl in Hq.
    apply andb_true_iff in Hq as [Hc Hev].
    assert ((1 <? c) = false) as -> by lia.
    destruct (regoEval E policy (queryStringOf namespace q) input)
      as [| |rs tr]; [done..|].
    destruct (IH (recordResult (queryStringOf namespace q) rs tr
                    (called (queryStringOf namespace q) input st))
                 Hpre Hdup) as (H1 & H2 & H3).
    split; [done|]. split; [done|].
    rewrite H3. simpl. by rewrite <- app_assoc.
Qed.

(** With an engine that answers every query of the list, the only way
    out of the loop is a count above one. *)
Lemma evalLoop_stops_on_duplicate queries st :
  (∀ e, e ∈ queries → evaluates E policy namespace input (fst e) = true) →
  forallb (passable E policy namespace input) queries = false →
  snd (loop queries st) = Some DuplicatePolicyFailure.
Proof.
  subst loop qs. revert st.
  induction queries as [|[q c] rest IH]; intros st Hev Hstop; [done|].
  simpl in Hstop. cbn [evalLoop].
  pose proof (Hev (q, c) ltac:(apply elem_of_cons; by left)) as Hq.
  unfold passable in Hstop at 1. simpl in Hq, Hstop. rewrite Hq in Hstop.
  destruct (Z.ltb_spec 1 c) as [Hc|Hc]; [done|].
  assert ((c <=? 1) = true) as Hle by lia. rewrite Hle in Hstop.
  unfold evaluates in Hq.
  destruct (regoEval E policy (queryStringOf namespace q) input);
    [done..|].
  apply IH; [|done]. intros e He. apply Hev, elem_of_cons. by right.
Qed.

End EvalLoop.

(** ** The report loop *)

Lemma reportLoop_lines tests testFailed :
  fst (reportLoop tests testFailed) = map reportLine tests.
Proof.
  revert testFailed.
  induction tests as [|[name passed] rest IH]; intros b; [done|].
  cbn [reportLoop]. destruct passed.
  - specialize (IH b). destruct (reportLoop rest b). simpl in *.
    by rewrite IH.
  - specialize (IH true). destruct (reportLoop rest true). simpl in *.
    by rewrite IH.
Qed.

Lemma reportLoop_failed tests testFailed :
  snd (reportLoop tests testFailed)
  = testFailed || negb (forallb snd tests).
Proof.
  revert testFailed.
  induction tests as [|[name passed] rest IH]; intros b.
  { simpl. by rewrite orb_false_r. }
  cbn [reportLoop]. destruct passed.
  - specialize (IH b). destruct (reportLoop rest b). simpl in *.
    by rewrite IH.
  - specialize (IH true). destruct (reportLoop rest true). simpl in *.
    rewrite IH. by rewrite orb_true_r.
Qed.

Lemma forallb_Permutation {A} (f : A → bool) (l1 l2 : list A) :
  l1 ≡ₚ l2 → forallb f l1 = forallb f l2.
Proof.
  induction 1 as [|x l1 l2 _ IH|x y l|l1 l2 l3 _ IH1 _ IH2]; simpl.
  - done.
  - by rewrite IH.
  - destruct (f x), (f y); done.
  - by rewrite IH1.
Qed.

Lemma forallb_false {A} (f : A → bool) (l : list A) :
  forallb f l = false ↔ ∃ x, x ∈ l ∧ f x = false.
Proof.
  induction l as [|y l IH]; simpl.
  - split; [done|]. by intros (x & Hx%elem_of_nil & _).
  - rewrite andb_false_iff, IH. split.
    + intros [Hy|(x & Hx & Hfx)].
      * exists y. split; [apply elem_of_cons; by left|done].
      * exists x. split; [apply elem_of_cons; by right|done].
    + intros (x & [->|Hx]%elem_of_cons & Hfx); [by left|].
      right. by exists x.
Qed.

(** ** The whole evaluation *)

Section Evaluation.
Variables (E : Env) (policy namespace : string) (input : Value).
Variable queryList : gmap string Z.

#[local] Abbreviation qs := (queryStringOf namespace).
#[local] Abbreviation ok := (passable E policy namespace input).

Lemma expectedResults_NoDup :
  NoDup (map fst (expectedResults E policy namespace input queryList)).
Proof.
  unfold expectedResults. rewrite map_map. simpl.
  rewrite <- (map_map fst (queryStringOf namespace)).
  apply (@NoDup_fmap_2 _ _ _ (queryStringOf_inj namespace)).
  apply NoDup_fst_map_to_list.
Qed.

Lemma evalLoop_expected :
  forallb ok (map_to_list queryList) = true →
  testResults
    (fst (evalLoop E policy namespace input (rangeQueries E queryList)
                   initialState))
  = list_to_map (expectedResults E policy namespace input queryList).
Proof.
  intros Hall. apply map_eq. intros k.
  rewrite evalLoop_testResults; last first.
  { by rewrite (forallb_Permutation _ _ _ (range_perm _ _)). }
  assert (∀ l : list (string * Z),
            map (λ e, queryStringOf namespace (fst e)) l
            = map fst (map (λ e : string * Z,
                (queryStringOf namespace (fst e),
                 outcome E policy input (queryStringOf namespace (fst e))))
                l)) as Hkeys.
  { intros l. rewrite map_map. done. }
  case_decide as Hin.
  - symmetry. apply elem_of_list_to_map_1; [apply expectedResults_NoDup|].
    rewrite (range_perm (rangeQueries E) queryList) in Hin.
    apply list_elem_of_fmap in Hin as ([id c] & -> & Hin).
    unfold expectedResults. apply list_elem_of_fmap. by exists (id, c).
  - simpl. rewrite lookup_empty. symmetry.
    apply not_elem_of_list_to_map_1. intros Hk. apply Hin.
    rewrite (range_perm (rangeQueries E) queryList).
    unfold expectedResults in Hk. by rewrite Hkeys.
Qed.

Lemma visited_all (queries : list (string * Z)) :
  forallb ok queries = true →
  visited E policy namespace input queries = map fst queries.
Proof.
  induction queries as [|[q c] rest IH]; [done|].
  simpl. unfold passable at 1. simpl.
  intros [[Hc ->]%andb_true_iff Hrest]%andb_true_iff.
  assert ((1 <? c) = false) as -> by lia. by rewrite IH.
Qed.

Lemma range_all_passable :
  forallb ok (rangeQueries E queryList) = forallb ok (map_to_list queryList).
Proof. apply forallb_Permutation, range_perm. Qed.

Lemma report_all_pass :
  forallb snd (rangeReport E (list_to_map
     (expectedResults E policy namespace input queryList)))
  = forallb snd (expectedResults E policy namespace input queryList).
Proof.
  apply forallb_Permutation. rewrite range_perm.
  apply map_to_list_to_map, expectedResults_NoDup.
Qed.

(** A run without duplicates and without engine errors over a non-empty
    mapping: its verdict, its report, its record of outcomes and what it
    asked the engine. *)
Lemma evalQueryList_complete :
  forallb ok (map_to_list queryList) = true →
  queryList ≠ ∅ →
  let run := evalQueryList E policy namespace input queryList in
  let expected := expectedResults E policy namespace input queryList in
  snd run = (if forallb snd expected then None else Some PolicyFailure)
  ∧ stdout (fst run)
    = map reportLine (rangeReport E (list_to_map expected))
      ++ [if forallb snd expected then SuccessBanner else FailureBanner]
  ∧ testResults (fst run) = list_to_map expected
  ∧ engineCalls (fst run)
    = map (λ e : string * Z, (qs (fst e), input)) (rangeQueries E queryList).
Proof.
  intros Hall Hne. cbv zeta. unfold evalQueryList.
  pose proof (evalLoop_expected Hall) as Hres.
  pose proof (evalLoop_calls E policy namespace input
                (rangeQueries E queryList) initialState) as Hcalls.
  pose proof (evalLoop_stdout_complete E policy namespace input
                (rangeQueries E queryList) initialState) as Hout.
  pose proof (evalLoop_completes E policy namespace input
                (rangeQueries E queryList) initialState) as Hdone.
  rewrite visited_all in Hcalls by (by rewrite range_all_passable).
  destruct (evalLoop E policy namespace input (rangeQueries E queryList)
              initialState) as [st [err|]]; simpl in *.
  { destruct Hdone as [_ Hdone]. rewrite range_all_passable in Hdone.
    by specialize (Hdone Hall). }
  assert (Nat.leb (size queryList) 0 = false) as ->.
  { apply Nat.leb_gt. destruct (size queryList) eqn:Hsz; [|lia].
    by apply map_size_empty_iff in Hsz. }
  specialize (Hout eq_refl). rewrite Hres.
  pose proof (reportLoop_lines
    (rangeReport E (list_to_map
       (expectedResults E policy namespace input queryList))) false) as Hl.
  pose proof (reportLoop_failed
    (rangeReport E (list_to_map
       (expectedResults E policy namespace input queryList))) false) as Hf.
  rewrite report_all_pass in Hf.
  destruct (reportLoop _ false) as [lines failed]. simpl in Hl, Hf.
  subst lines failed. rewrite map_map in Hcalls.
  destruct (forallb snd (expectedResults E policy namespace input queryList));
    simpl; rewrite Hout; simpl; by rewrite Hres.
Qed.

(** The run succeeds exactly when there is a test, no count is above
    one, the engine answers every query, and every outcome is PASS. *)
Lemma evalQueryList_succeeded :
  succeeded (evalQueryList E policy namespace input queryList)
  = forallb ok (map_to_list queryList)
    && negb (Nat.eqb (size queryList) 0)
    && forallb snd (expectedResults E policy namespace input queryList).
Proof.
  destruct (forallb ok (map_to_list queryList)) eqn:Hall.
  - destruct (decide (queryList = ∅)) as [Hemp|Hne].
    + unfold evalQueryList.
      assert (size queryList = 0%nat) as Hsz by (by rewrite Hemp).
      rewrite Hsz.
      by destruct (evalLoop _ _ _ _ _ _) as [st [err|]].
    + destruct (evalQueryList_complete Hall Hne) as (Hrun & _).
      unfold succeeded. rewrite Hrun.
      assert (Nat.eqb (size queryList) 0 = false) as ->.
      { apply Nat.eqb_neq. by rewrite map_size_empty_iff. }
      simpl. by destruct (forallb snd _).
  - unfold evalQueryList.
    pose proof (evalLoop_completes E policy namespace input
                  (rangeQueries E queryList) initialState) as Hdone.
    rewrite range_all_passable, Hall in Hdone.
    destruct (evalLoop _ _ _ _ _ _) as [st [err|]]; [done|].
    simpl in Hdone. by destruct Hdone as [Hdone _]; specialize (Hdone eq_refl).
Qed.

End Evaluation.


(** The loop does not look at the iteration orders of its environment:
    its order is the list it is given. *)
Lemma evalLoop_withOrders E queries report policy namespace input l st :
  evalLoop (withOrders E queries report) policy namespace input l st
  = evalLoop E policy namespace input l st.
Proof.
  revert st. induction l as [|[q c] rest IH]; intros st; [done|].
  cbn [evalLoop]. destruct (1 <? c); [done|].
  change (regoEval (withOrders E queries report)) with (regoEval E).
  by destruct (regoEval E policy (queryStringOf namespace q) input).
Qed.

(** ** Runs over an empty mapping *)

Lemma range_empty {A} (order : RangeOrder A) : order ∅ = [].
Proof.
  apply Permutation_nil_r. rewrite range_perm. by rewrite map_to_list_empty.
Qed.

Lemma evalQueryList_empty E policy namespace input :
  evalQueryList E policy namespace input ∅
  = (initialState, Some UnmatchedQuery).
Proof. unfold evalQueryList. by rewrite range_empty. Qed.

(** ** Passable entries and outcomes, entry by entry *)

Lemma all_passable E policy namespace input (queryList : gmap string Z) :
  forallb (passable E policy namespace input) (map_to_list queryList) = true
  ↔ ∀ id c, queryList !! id = Some c →
      c ≤ 1 ∧ evaluates E policy namespace input id = true.
Proof.
  rewrite forallb_forall. split.
  - intros H id c Hid. apply elem_of_map_to_list, list_elem_of_In in Hid.
    apply H in Hid. unfold passable in Hid. simpl in Hid.
    apply andb_true_iff in Hid as [Hc Hev]. split; [lia|done].
  - intros H [id c] Hin. apply list_elem_of_In, elem_of_map_to_list in Hin.
    destruct (H id c Hin) as [Hc Hev]. unfold passable. simpl.
    apply andb_true_iff. split; [lia|done].
Qed.

Lemma all_pass E policy namespace input (queryList : gmap string Z) :
  forallb snd (expectedResults E policy namespace input queryList) = true
  ↔ ∀ id, is_Some (queryList !! id) →
      outcome E policy input (queryStringOf namespace id) = true.
Proof.
  unfold expectedResults. rewrite forallb_forall. split.
  - intros H id [c Hid]. apply elem_of_map_to_list in Hid.
    apply (H (queryStringOf namespace id,
              outcome E policy input (queryStringOf namespace id))).
    apply in_map_iff. exists (id, c). by rewrite <- list_elem_of_In.
  - intros H [k b] Hin. apply in_map_iff in Hin as ([id c] & Heq & Hin).
    simpl in Heq. injection Heq as <- <-. simpl. apply H. exists c.
    by apply elem_of_map_to_list, list_elem_of_In.
Qed.

(** * The properties of the specification *)

(** C4.  When discovery yields an empty mapping the run fails with
    [UnmatchedQuery]: it is not a success, the engine is never asked, and
    nothing is reported, the success banner included. *)
Theorem empty_mapping_is_unmatched_query E policy namespace input :
  getQueryList E policy = ∅ →
  let run := evalPolicyOnInput E policy namespace input in
  snd run = Some UnmatchedQuery
  ∧ succeeded run = false
  ∧ stdout (fst run) = []
  ∧ engineCalls (fst run) = [].
Proof.
  intros Hempty. cbv zeta. unfold evalPolicyOnInput.
  by rewrite Hempty, evalQueryList_empty.
Qed.

Lemma empty_mapping_is_unmatched_query_witness :
  getQueryList (sampleEnv (inr helperModules) emptyEngine
                          range_forward range_forward) "policy.rego" = ∅
  ∧ snd (evalPolicyOnInput
           (sampleEnv (inr helperModules) emptyEngine
                      range_forward range_forward)
           "policy.rego" "main" VNil)
    = Some UnmatchedQuery.
Proof.
  split; [reflexivity|].
  apply (empty_mapping_is_unmatched_query
           (sampleEnv (inr helperModules) emptyEngine
                      range_forward range_forward)
           "policy.rego" "main" VNil).
  reflexivity.
Defined.

(** C10.  A failed load leaves discovery with no module: the error is
    dropped, the mapping is empty, and the run ends with [UnmatchedQuery]
    and not with an error that carries the cause of the failed load. *)
Theorem load_failure_ends_as_unmatched_query E policy namespace input cause :
  testerLoad E policy = inl cause →
  getQueryList E policy = ∅
  ∧ evalPolicyOnInput E policy namespace input
    = (initialState, Some UnmatchedQuery).
Proof.
  intros Hload.
  assert (getQueryList E policy = ∅) as Hempty.
  { unfold getQueryList, loadedModules. by rewrite Hload. }
  split; [done|]. unfold evalPolicyOnInput.
  by rewrite Hempty, evalQueryList_empty.
Qed.

Lemma load_failure_ends_as_unmatched_query_witness :
  testerLoad (sampleEnv (inl (External "rego_parse_error")) emptyEngine
                        range_forward range_forward) "policy.rego"
  = inl (External "rego_parse_error")
  ∧ evalPolicyOnInput
      (sampleEnv (inl (External "rego_parse_error")) emptyEngine
                 range_forward range_forward)
      "policy.rego" "main" VNil
    = (initialState, Some UnmatchedQuery).
Proof.
  split; [reflexivity|].
  apply (load_failure_ends_as_unmatched_query
           (sampleEnv (inl (External "rego_parse_error")) emptyEngine
                      range_forward range_forward)
           "policy.rego" "main" VNil (External "rego_parse_error")).
  reflexivity.
Defined.

(** C1, as the code has it.  The count is tested at the top of each
    iteration of the evaluation loop.  When the entries visited before the
    first count above one all evaluate, the run fails with
    [DuplicatePolicyFailure], prints the duplicate notice and no PASS or
    FAIL line, and has asked the engine once for each entry visited
    before the duplicate and for nothing else: not at all when the
    duplicate is visited first. *)
Theorem duplicate_stops_the_loop E policy namespace input
    (pre post : list (string * Z)) id c :
  rangeQueries E (getQueryList E policy) = pre ++ (id, c) :: post →
  1 < c →
  forallb (passable E policy namespace input) pre = true →
  let run := evalPolicyOnInput E policy namespace input in
  snd run = Some DuplicatePolicyFailure
  ∧ stdout (fst run) = [DuplicateBanner; DuplicateKey id]
  ∧ engineCalls (fst run)
    = map (λ e : string * Z, (queryStringOf namespace (fst e), input)) pre
  ∧ (pre = [] → engineCalls (fst run) = []).
Proof.
  intros Horder Hdup Hpre. cbv zeta.
  unfold evalPolicyOnInput, evalQueryList. rewrite Horder.
  destruct (evalLoop_duplicate E policy namespace input pre id c post
              initialState Hpre Hdup) as (Herr & Hout & Hcalls).
  destruct (evalLoop _ _ _ _ _ _) as [st err]. simpl in *. subst err.
  simpl. repeat split; try done. intros ->. by rewrite Hcalls.
Qed.

Lemma duplicate_stops_the_loop_witness :
  snd (evalPolicyOnInput
         (sampleEnv (inr duplicatedModules) emptyEngine
                    range_forward range_forward)
         "policy.rego" "main" VNil)
  = Some DuplicatePolicyFailure
  ∧ engineCalls
      (fst (evalPolicyOnInput
              (sampleEnv (inr duplicatedModules) emptyEngine
                         range_forward range_forward)
              "policy.rego" "main" VNil))
    = [("data.main.expect[a]", VNil)].
Proof.
  pose proof (duplicate_stops_the_loop
                (sampleEnv (inr duplicatedModules) emptyEngine
                           range_forward range_forward)
                "policy.rego" "main" VNil
                [("expect[a]", 1)] [] "expect[b]" 2
                eq_refl eq_refl eq_refl) as (Herr & _ & Hcalls & _).
  split; [exact Herr | exact Hcalls].
Defined.

(** C1, as stated, fails: with one rule [expect[a]] and two rules
    [expect[b]], a loop that visits [expect[a]] first has evaluated its
    query by the time it meets the duplicate; and when the engine rejects
    that first query the run ends with the engine's error instead. *)
Lemma duplicate_after_query_counterexample :
  (∃ id c,
     getQueryList (sampleEnv (inr duplicatedModules) emptyEngine
                             range_forward range_forward)
                  "policy.rego" !! id = Some c ∧ 1 < c)
  ∧ engineCalls
      (fst (evalPolicyOnInput
              (sampleEnv (inr duplicatedModules) emptyEngine
                         range_forward range_forward)
              "policy.rego" "main" VNil))
    ≠ []
  ∧ snd (evalPolicyOnInput
           (sampleEnv (inr duplicatedModules) brokenEngine
                      range_forward range_forward)
           "policy.rego" "main" VNil)
    ≠ Some DuplicatePolicyFailure.
Proof.
  split; [|split].
  - exists "expect[b]", 2. split; [reflexivity|lia].
  - vm_compute. discriminate.
  - vm_compute. discriminate.
Qed.

(** C3.  For a discovered test whose count is not above one and whose
    query the engine answers with a result set: the loop body hands the
    engine the query [data.<namespace>.<testIdentifier>] and records PASS
    exactly when some result of the set has an expression whose text is
    that query; an empty result set is recorded as FAIL and the loop goes
    on.  In a run without duplicates whose queries all evaluate, that
    record is what the run ends with and reports, and the run returns
    [nil] or [PolicyFailure], never an engine error. *)
Theorem test_passes_iff_query_text_in_results E policy namespace input
    id c resultSet trace :
  getQueryList E policy !! id = Some c →
  c ≤ 1 →
  regoEval E policy (queryStringOf namespace id) input
  = Evaluated resultSet trace →
  let queryString := queryStringOf namespace id in
  let passed := passes queryString resultSet in
  (∀ rest st,
     let st' :=
       recordResult queryString resultSet trace
                    (called queryString input st) in
     evalLoop E policy namespace input ((id, c) :: rest) st
     = evalLoop E policy namespace input rest st'
     ∧ engineCalls st' = engineCalls st ++ [(queryString, input)]
     ∧ testResults st' !! queryString = Some passed)
  ∧ (passed = true
     ↔ ∃ result expression,
         result ∈ resultSet ∧ expression ∈ Expressions result
         ∧ Text expression = queryString)
  ∧ (resultSet = [] → passed = false)
  ∧ ((∀ id' c', getQueryList E policy !! id' = Some c' →
        c' ≤ 1 ∧ evaluates E policy namespace input id' = true) →
     let run := evalPolicyOnInput E policy namespace input in
     (queryString, input) ∈ engineCalls (fst run)
     ∧ testResults (fst run) !! queryString = Some passed
     ∧ reportLine (queryString, passed) ∈ stdout (fst run)
     ∧ (snd run = None ∨ snd run = Some PolicyFailure)).
Proof.
  intros Hid Hc Heng. cbv zeta. split; [|split; [|split]].
  - intros rest st. cbn [evalLoop].
    assert ((1 <? c) = false) as -> by lia. rewrite Heng.
    split; [done|]. split; [done|]. simpl.
    by rewrite classify_insert, lookup_insert_eq.
  - apply passes_true.
  - by intros ->.
  - intros Hall.
    assert (getQueryList E policy ≠ ∅) as Hne.
    { intros Hemp. by rewrite Hemp, lookup_empty in Hid. }
    apply all_passable in Hall.
    destruct (evalQueryList_complete E policy namespace input
                (getQueryList E policy) Hall Hne)
      as (Herr & Hout & Hres & Hcalls).
    unfold evalPolicyOnInput.
    assert ((queryStringOf namespace id,
             passes (queryStringOf namespace id) resultSet)
            ∈ expectedResults E policy namespace input
                (getQueryList E policy)) as Hexp.
    { unfold expectedResults. apply list_elem_of_fmap. exists (id, c).
      split; [|by apply elem_of_map_to_list].
      simpl. unfold outcome. by rewrite Heng. }
    split; [|split; [|split]].
    + rewrite Hcalls. apply list_elem_of_fmap. exists (id, c).
      split; [done|]. rewrite range_perm. by apply elem_of_map_to_list.
    + rewrite Hres. apply elem_of_list_to_map_1; [|done].
      apply expectedResults_NoDup.
    + rewrite Hout. apply elem_of_app. left.
      apply list_elem_of_fmap. eexists. split; [done|].
      rewrite range_perm. apply elem_of_map_to_list.
      apply elem_of_list_to_map_1; [|done]. apply expectedResults_NoDup.
    + rewrite Herr. destruct (forallb snd _); auto.
Qed.

Lemma test_passes_iff_query_text_in_results_witness :
  testResults
    (fst (evalPolicyOnInput
            (sampleEnv (inr twoTestModules)
                       (engineOf ["data.main.expect[a]"])
                       range_backward range_forward)
            "policy.rego" "main" VNil))
  !! "data.main.assert[b]"
  = Some (passes "data.main.assert[b]" []).
Proof.
  pose proof (test_passes_iff_query_text_in_results
                (sampleEnv (inr twoTestModules)
                           (engineOf ["data.main.expect[a]"])
                           range_backward range_forward)
                "policy.rego" "main" VNil "assert[b]" 1 [] ["Enter"; "Fail"]
                eq_refl ltac:(lia) eq_refl)
    as (_ & _ & _ & Hrun).
  apply Hrun. intros id' c' Hid'.
  apply elem_of_map_to_list in Hid'. vm_compute in Hid'.
  apply elem_of_cons in Hid' as [Heq|Hid'].
  { injection Heq as -> ->. split; [lia|reflexivity]. }
  apply list_elem_of_singleton in Hid'.
  injection Hid' as -> ->. split; [lia|reflexivity].
Defined.

(** C5.  A run with at least one discovered test, no count above one and
    no engine error returns [PolicyFailure] exactly when some test is
    FAIL and [nil] exactly when every test is PASS; before the closing
    banner it prints one line per test identifier, PASS or FAIL by the
    outcome of its query. *)
Theorem verdict_follows_the_outcomes E policy namespace input :
  getQueryList E policy ≠ ∅ →
  (∀ id c, getQueryList E policy !! id = Some c → c ≤ 1) →
  (∀ id, is_Some (getQueryList E policy !! id) →
         evaluates E policy namespace input id = true) →
  let run := evalPolicyOnInput E policy namespace input in
  let fails id :=
    is_Some (getQueryList E policy !! id)
    ∧ outcome E policy input (queryStringOf namespace id) = false in
  (snd run = Some PolicyFailure ↔ ∃ id, fails id)
  ∧ (snd run = None
     ↔ ∀ id, is_Some (getQueryList E policy !! id) →
             outcome E policy input (queryStringOf namespace id) = true)
  ∧ ∃ lines banner,
      stdout (fst run) = lines ++ [banner]
      ∧ lines ≡ₚ map (λ e : string * Z,
                        reportLine
                          (queryStringOf namespace (fst e),
                           outcome E policy input
                                   (queryStringOf namespace (fst e))))
                     (map_to_list (getQueryList E policy))
      ∧ banner = match snd run with
                 | Some _ => FailureBanner
                 | None => SuccessBanner
                 end.
Proof.
  intros Hne Hcount Heval. cbv zeta.
  assert (forallb (passable E policy namespace input)
                  (map_to_list (getQueryList E policy)) = true) as Hall.
  { apply all_passable. intros id c Hid. split; [by eapply Hcount|].
    apply Heval. by exists c. }
  destruct (evalQueryList_complete E policy namespace input
              (getQueryList E policy) Hall Hne)
    as (Herr & Hout & _ & _).
  unfold evalPolicyOnInput. rewrite Herr, Hout.
  pose proof (all_pass E policy namespace input (getQueryList E policy))
    as Hpass.
  assert ((∃ id, is_Some (getQueryList E policy !! id)
                 ∧ outcome E policy input (queryStringOf namespace id)
                   = false)
          ↔ forallb snd (expectedResults E policy namespace input
                           (getQueryList E policy)) = false) as Hfail.
  { split.
    - intros (id & Hid & Hout'). apply not_true_iff_false.
      rewrite Hpass. intros Hall'. specialize (Hall' id Hid). congruence.
    - intros ([k b] & Hin & Hb)%forallb_false. simpl in Hb. subst b.
      unfold expectedResults in Hin.
      apply list_elem_of_fmap in Hin as ([id c] & Heq & Hin).
      simpl in Heq. injection Heq as -> Hout'.
      exists id. split; [|done]. exists c. by apply elem_of_map_to_list. }
  split; [|split].
  - rewrite Hfail. by destruct (forallb snd _).
  - rewrite <- Hpass. by destruct (forallb snd _).
  - eexists _, _. split; [done|]. split.
    + rewrite range_perm.
      rewrite map_to_list_to_map by apply expectedResults_NoDup.
      unfold expectedResults. by rewrite map_map.
    + by destruct (forallb snd _).
Qed.

Lemma verdict_follows_the_outcomes_witness :
  snd (evalPolicyOnInput
         (sampleEnv (inr twoTestModules)
                    (engineOf ["data.main.expect[a]"; "data.main.assert[b]"])
                    range_forward range_backward)
         "policy.rego" "main" VNil)
  = None
  ↔ ∀ id,
      is_Some (getQueryList
                 (sampleEnv (inr twoTestModules)
                    (engineOf ["data.main.expect[a]"; "data.main.assert[b]"])
                    range_forward range_backward)
                 "policy.rego" !! id) →
      outcome
        (sampleEnv (inr twoTestModules)
                   (engineOf ["data.main.expect[a]"; "data.main.assert[b]"])
                   range_forward range_backward)
        "policy.rego" VNil (queryStringOf "main" id)
      = true.
Proof.
  assert (∀ id c,
    getQueryList
      (sampleEnv (inr twoTestModules)
         (engineOf ["data.main.expect[a]"; "data.main.assert[b]"])
         range_forward range_backward) "policy.rego" !! id = Some c →
    (id = "expect[a]" ∨ id = "assert[b]") ∧ c = 1) as Hlist.
  { intros id c Hid. apply elem_of_map_to_list in Hid. vm_compute in Hid.
    apply elem_of_cons in Hid as [Heq|Hid].
    { injection Heq as -> ->. auto. }
    apply list_elem_of_singleton in Hid. injection Hid as -> ->. auto. }
  apply (verdict_follows_the_outcomes
           (sampleEnv (inr twoTestModules)
              (engineOf ["data.main.expect[a]"; "data.main.assert[b]"])
              range_forward range_backward)
           "policy.rego" "main" VNil).
  - vm_compute. discriminate.
  - intros id c Hid. destruct (Hlist id c Hid) as [_ ->]. lia.
  - intros id [c Hid]. by destruct (Hlist id c Hid) as [[-> | ->] _].
Defined.

(** C9.  For a fixed mapping of discovered tests and a fixed answer of
    the engine to each query, the run succeeds under one order of
    iteration (over the mapping and over the outcomes) exactly when it
    succeeds under any other.  When the engine answers every query, the
    value returned is the same as well. *)
Theorem verdict_independent_of_iteration_order E policy namespace input
    (queryList : gmap string Z)
    (queries1 queries2 : RangeOrder Z) (report1 report2 : RangeOrder bool) :
  let run1 :=
    evalQueryList (withOrders E queries1 report1) policy namespace input
                  queryList in
  let run2 :=
    evalQueryList (withOrders E queries2 report2) policy namespace input
                  queryList in
  succeeded run1 = succeeded run2
  ∧ ((∀ id, is_Some (queryList !! id) →
            evaluates E policy namespace input id = true) →
     snd run1 = snd run2).
Proof.
  cbv zeta. split.
  - by rewrite !evalQueryList_succeeded.
  - intros Hev.
    destruct (forallb (passable E policy namespace input)
                      (map_to_list queryList)) eqn:Hall.
    + destruct (decide (queryList = ∅)) as [->|Hne].
      { by rewrite !evalQueryList_empty. }
      destruct (evalQueryList_complete (withOrders E queries1 report1)
                  policy namespace input queryList Hall Hne) as (-> & _).
      by destruct (evalQueryList_complete (withOrders E queries2 report2)
                  policy namespace input queryList Hall Hne) as (-> & _).
    + assert (∀ order : RangeOrder Z,
                snd (evalLoop E policy namespace input (order queryList)
                              initialState)
                = Some DuplicatePolicyFailure) as Hdup.
      { intros order. apply evalLoop_stops_on_duplicate.
        - intros [id c] Hin. apply Hev. exists c.
          rewrite range_perm in Hin. by apply elem_of_map_to_list.
        - by rewrite (forallb_Permutation _ _ _ (range_perm order _)). }
      unfold evalQueryList.
      change (rangeQueries (withOrders E queries1 report1)) with queries1.
      change (rangeQueries (withOrders E queries2 report2)) with queries2.
      rewrite !evalLoop_withOrders.
      pose proof (Hdup queries1) as H1. pose proof (Hdup queries2) as H2.
      destruct (evalLoop E policy namespace input (queries1 queryList) _)
        as [st1 err1].
      destruct (evalLoop E policy namespace input (queries2 queryList) _)
        as [st2 err2].
      simpl in H1, H2. by subst.
Qed.

Lemma verdict_independent_of_iteration_order_witness :
  succeeded
    (evalQueryList
       (withOrders (sampleEnv (inr duplicatedModules) brokenEngine
                              range_forward range_forward)
                   range_forward range_forward)
       "policy.rego" "main" VNil
       (<[ "expect[a]" := 1 ]> {[ "expect[b]" := 2 ]}))
  = succeeded
      (evalQueryList
         (withOrders (sampleEnv (inr duplicatedModules) brokenEngine
                                range_forward range_forward)
                     range_backward range_backward)
         "policy.rego" "main" VNil
         (<[ "expect[a]" := 1 ]> {[ "expect[b]" := 2 ]})).
Proof.
  exact (proj1 (verdict_independent_of_iteration_order
                  (sampleEnv (inr duplicatedModules) brokenEngine
                             range_forward range_forward)
                  "policy.rego" "main" VNil
                  (<[ "expect[a]" := 1 ]> {[ "expect[b]" := 2 ]})
                  range_forward range_backward
                  range_forward range_backward)).
Defined.

(** Which error a failing run returns is another matter when the engine
    rejects a query: with [expect[a]] once and [expect[b]] twice, a loop
    that meets [expect[a]] first returns the engine's error, one that
    meets [expect[b]] first returns [DuplicatePolicyFailure]. *)
Example returned_error_follows_the_order :
  snd (evalPolicyOnInput
         (sampleEnv (inr duplicatedModules) brokenEngine
                    range_forward range_forward)
         "policy.rego" "main" VNil)
  = Some (Errorf "failed eval on policies: "
                 (External "eval_internal_error"))
  ∧ snd (evalPolicyOnInput
           (sampleEnv (inr duplicatedModules) brokenEngine
                      range_backward range_forward)
           "policy.rego" "main" VNil)
    = Some DuplicatePolicyFailure.
Proof. split; reflexivity. Qed.

(** ** Discovery *)

Lemma prefix_prefixes (p s : string) :
  String.prefix p s = true ↔ p ∈ prefixes s.
Proof.
  revert p. induction s as [|c s IH]; intros p.
  - destruct p; simpl.
    + split; [intros _; apply list_elem_of_singleton; done|done].
    + split; [done|]. intros H%list_elem_of_singleton. done.
  - destruct p as [|a p]; cbn [String.prefix prefixes].
    + split; [|done]. intros _. apply elem_of_cons. by left.
    + destruct (ascii_dec a c) as [->|Hne].
      * rewrite IH. split.
        -- intros Hp. apply elem_of_cons. right.
           apply list_elem_of_fmap. by exists p.
        -- intros [Heq|Hin]%elem_of_cons; [done|].
           apply list_elem_of_fmap in Hin as (p' & Heq & Hin).
           by injection Heq as ->.
      * split; [done|]. intros [Heq|Hin]%elem_of_cons; [done|].
        apply list_elem_of_fmap in Hin as (p' & Heq & Hin).
        injection Heq as -> _. done.
Qed.

(** What the condition of [getQueryList] accepts: the head names that
    are an initial part of one of its two literals. *)
Lemma qualifies_prefix_of_literal (rule : Rule) :
  qualifies rule = true
  ↔ Name (RuleHead rule)
    ∈ [""; "e"; "ex"; "exp"; "expe"; "expec"; "expect"; "expect[";
       "a"; "as"; "ass"; "asse"; "asser"; "assert"; "assert["].
Proof.
  unfold qualifies, HasPrefix. rewrite orb_true_iff, !prefix_prefixes.
  cbn [prefixes map]. rewrite !elem_of_cons. rewrite !elem_of_nil.
  tauto.
Qed.

Lemma countModules_concat (mods : list Module) (res : gmap string Z) :
  foldl countModule res mods
  = foldl countRule res (concat (map Rules mods)).
Proof.
  revert res. induction mods as [|m mods IH]; intros res; [done|].
  simpl. rewrite foldl_app. apply IH.
Qed.

(** Counting in a 64-bit [int] is counting, below [2^63]. *)
Lemma iter_int_add (n : nat) :
  Z.of_nat n < 2 ^ 63 →
  Nat.iter n (λ z, int_add z 1) 0 = Z.of_nat n.
Proof.
  induction n as [|n IH]; intros Hn; [done|].
  rewrite Nat.iter_succ, IH by lia.
  unfold int_add, int_wrap. rewrite Z.mod_small by lia. lia.
Qed.

(** The counter of an identifier after the rules of a list: one
    increment for each rule discovered under it, none for the others. *)
Lemma countRules_lookup (rules : list Rule) (res : gmap string Z)
    (id : string) :
  foldl countRule res rules !! id
  = match length (List.filter (discoveredAs id) rules) with
    | O => res !! id
    | S n => Some (Nat.iter (S n) (λ z, int_add z 1) (default 0 (res !! id)))
    end.
Proof.
  revert res. induction rules as [|rule rules IH]; intros res; [done|].
  cbn [foldl List.filter]. rewrite IH. unfold discoveredAs at 2, countRule.
  destruct (qualifies rule); [|done].
  destruct (String.eqb_spec (testIdentifier (RuleHead rule)) id)
    as [->|Hne]; simpl.
  - unfold increment. rewrite lookup_insert_eq. cbn [length default].
    destruct (length _) as [|n]; [done|].
    unfold Datatypes.id. by rewrite (Nat.iter_succ_r n).
  - unfold increment. by rewrite lookup_insert_ne.
Qed.

Lemma getQueryList_count E (policy id : string) :
  Z.of_nat (occurrences E policy id) < 2 ^ 63 →
  getQueryList E policy !! id
  = match occurrences E policy id with
    | O => None
    | n => Some (Z.of_nat n)
    end.
Proof.
  intros Hn. unfold getQueryList, occurrences in *.
  rewrite countModules_concat, countRules_lookup.
  destruct (length _) as [|n] eqn:Hlen; [done|].
  rewrite lookup_empty. cbn [default]. by rewrite iter_int_add.
Qed.

(** C2, as the code has it.  The condition of [getQueryList] looks for
    the bracketed forms: a rule whose head name is [expect] or [assert]
    is a test, and a rule is a test only if its head name is one of
    these two or an initial part of the literal [expect[] or [assert[]
    that the condition compares it with; no other rule is a test, be its
    name unrelated ([helper], [deny]) or a reserved word that goes on
    ([expect_replicas]).  So among the names of the grammar
    [^(expect|assert)(_[A-Za-z]+)*$] the two reserved words are the
    only tests, and [expectQuery] is not consulted.  Every test is
    counted under the identifier [<head-name>[<head-key>]], and the
    mapping returned holds every count as it is, those of two and more
    included. *)
Theorem discovery_counts_bracketed_rules E (policy : string) :
  (∀ rule,
     Name (RuleHead rule) = "expect" ∨ Name (RuleHead rule) = "assert" →
     qualifies rule = true)
  ∧ (∀ rule,
       qualifies rule = true →
       Name (RuleHead rule) = "expect" ∨ Name (RuleHead rule) = "assert"
       ∨ Name (RuleHead rule)
         ∈ [""; "e"; "ex"; "exp"; "expe"; "expec"; "expect[";
            "a"; "as"; "ass"; "asse"; "asser"; "assert["])
  ∧ (∀ rule,
       reservedGrammar (Name (RuleHead rule)) = true →
       (qualifies rule = true
        ↔ Name (RuleHead rule) = "expect" ∨ Name (RuleHead rule) = "assert"))
  ∧ (∀ rule,
       discoveredAs (testIdentifier (RuleHead rule)) rule = qualifies rule
       ∧ testIdentifier (RuleHead rule)
         = Name (RuleHead rule) +:+ "[" +:+ formatKey (Key (RuleHead rule))
           +:+ "]")
  ∧ (∀ id,
       Z.of_nat (occurrences E policy id) < 2 ^ 63 →
       getQueryList E policy !! id
       = match occurrences E policy id with
         | O => None
         | n => Some (Z.of_nat n)
         end).
Proof.
  split; [|split; [|split; [|split]]].
  - intros [[name key]] [Hname|Hname]; simpl in Hname; by subst name.
  - intros rule Hq. apply qualifies_prefix_of_literal in Hq.
    rewrite !elem_of_cons, elem_of_nil in Hq.
    rewrite !elem_of_cons, elem_of_nil. tauto.
  - intros rule Hgrammar. split.
    + intros Hq. apply qualifies_prefix_of_literal in Hq.
      rewrite !elem_of_cons, elem_of_nil in Hq.
      destruct Hq as [Hq|[Hq|[Hq|[Hq|[Hq|[Hq|[Hq|[Hq|[Hq|[Hq|[Hq|[Hq|
                     [Hq|[Hq|[Hq|[]]]]]]]]]]]]]]]];
        rewrite Hq in Hgrammar |- *;
        first [by left | by right | by vm_compute in Hgrammar].
    + destruct rule as [[name key]]. simpl.
      intros [-> | ->]; reflexivity.
  - intros rule. split; [|done]. unfold discoveredAs.
    by rewrite String.eqb_refl, andb_true_r.
  - apply getQueryList_count.
Qed.

Lemma discovery_counts_bracketed_rules_witness :
  getQueryList
    (sampleEnv (inr duplicatedModules) emptyEngine
               range_forward range_forward)
    "policy.rego" !! "expect[b]"
  = Some 2
  ∧ qualifies (keyedRule "helper" "c") = false
  ∧ getQueryList
      (sampleEnv (inr helperModules) emptyEngine
                 range_forward range_forward)
      "policy.rego" !! "helper[c]"
    = None.
Proof.
  split; [|split].
  - refine (proj2 (proj2 (proj2 (proj2 (discovery_counts_bracketed_rules
              (sampleEnv (inr duplicatedModules) emptyEngine
                         range_forward range_forward)
              "policy.rego")))) "expect[b]" _).
    vm_compute. reflexivity.
  - destruct (qualifies (keyedRule "helper" "c")) eqn:Hq; [|reflexivity].
    apply (proj1 (proj2 (discovery_counts_bracketed_rules
             (sampleEnv (inr helperModules) emptyEngine
                        range_forward range_forward)
             "policy.rego"))) in Hq.
    simpl in Hq. rewrite !elem_of_cons, elem_of_nil in Hq.
    repeat (destruct Hq as [Hq|Hq]; [discriminate Hq|]).
    destruct Hq.
  - refine (proj2 (proj2 (proj2 (proj2 (discovery_counts_bracketed_rules
              (sampleEnv (inr helperModules) emptyEngine
                         range_forward range_forward)
              "policy.rego")))) "helper[c]" _).
    vm_compute. reflexivity.
Defined.

(** C2, as stated, fails in both directions.  A rule named
    [expect_replicas], which the grammar and the package's own
    [expectQuery] accept, is not discovered.  A rule named [exp], which
    matches neither the grammar nor a bracketed form, is discovered and
    counted: the condition asks whether the literal [expect[] begins with
    the head name. *)
Lemma grammar_name_not_discovered_counterexample :
  reservedGrammar "expect_replicas" = true
  ∧ expectQuery "expect_replicas" = true
  ∧ getQueryList
      (sampleEnv (inr [MkModule [keyedRule "expect_replicas" "x"]])
                 emptyEngine range_forward range_forward)
      "policy.rego"
    = ∅
  ∧ reservedGrammar "exp" = false
  ∧ getQueryList
      (sampleEnv (inr [MkModule [keyedRule "exp" "x"]])
                 emptyEngine range_forward range_forward)
      "policy.rego"
    = {[ "exp[x]" := 1 ]}.
Proof. repeat split; reflexivity. Qed.

(** ** Merging *)

(** The second loop of [mergeMaps] over the entries of the incoming
    document in any order without repeated keys: per key, the result is
    [mergedAt]. *)
Lemma mergeEntries_lookup (entries : list (string * Value))
    (a : gmap string Value) (k : string) :
  NoDup (map fst entries) →
  foldr (λ e out, mergeEntry mergeInto (fst e) (snd e) out) a entries !! k
  = mergedAt mergeMaps (a !! k)
             ((list_to_map entries : gmap string Value) !! k).
Proof.
  induction entries as [|[k0 v0] entries IH]; intros Hnd.
  { simpl. rewrite lookup_empty. unfold mergedAt.
    by destruct (a !! k) as [[]|]. }
  apply NoDup_cons in Hnd as [Hfresh Hnd]. specialize (IH Hnd).
  cbn [foldr fst snd list_to_map].
  set (out := foldr _ a entries) in *.
  destruct (decide (k = k0)) as [->|Hne].
  - rewrite lookup_insert_eq.
    assert (out !! k0 = a !! k0) as Hout.
    { rewrite IH.
      rewrite (not_elem_of_list_to_map_1 entries k0) by done.
      unfold mergedAt. by destruct (a !! k0) as [[]|]. }
    unfold mergeEntry, mergedAt. rewrite Hout.
    destruct v0, (a !! k0) as [[]|]; by rewrite ?lookup_insert_eq.
  - rewrite (lookup_insert_ne _ k0 k) by done. rewrite <- IH.
    unfold mergeEntry.
    destruct v0, (out !! k0) as [[]|]; by rewrite lookup_insert_ne.
Qed.

(** [mergeMaps], key by key. *)
Lemma mergeMaps_lookup (a b : gmap string Value) (k : string) :
  mergeMaps a b !! k = mergedAt mergeMaps (a !! k) (b !! k).
Proof.
  unfold mergeMaps at 1. cbn [mergeInto]. rewrite map_fold_foldr.
  rewrite <- (list_to_map_to_list b) at 2.
  rewrite <- mergeEntries_lookup by apply NoDup_fst_map_to_list.
  f_equal. clear. induction (map_to_list b) as [|[k0 v0] l IH]; [done|].
  simpl. by rewrite IH.
Qed.

Lemma foldl_as_foldr {A B} (f : A → B → A) (a : A) (l : list B) :
  foldl f a l = foldr (λ x acc, f acc x) a (reverse l).
Proof.
  revert a. induction l as [|x l IH]; intros a; [done|].
  simpl. by rewrite reverse_cons, foldr_app, IH.
Qed.

(** The loop gives the same document whatever the order in which it
    visits the entries of the incoming one. *)
Lemma mergeMaps_any_order (a b : gmap string Value)
    (entries : list (string * Value)) :
  entries ≡ₚ map_to_list b →
  foldl (λ out e, mergeEntry mergeInto (fst e) (snd e) out) a entries
  = mergeMaps a b.
Proof.
  intros Hperm. apply map_eq. intros k. rewrite mergeMaps_lookup.
  assert (NoDup (map fst (reverse entries))) as Hnd.
  { rewrite reverse_Permutation, Hperm. apply NoDup_fst_map_to_list. }
  rewrite foldl_as_foldr.
  rewrite mergeEntries_lookup by done. do 2 f_equal.
  rewrite <- (list_to_map_to_list b). apply list_to_map_proper; [done|].
  by rewrite reverse_Permutation.
Qed.

Lemma mergeValuesFrom_fold E (valueFiles : list string)
    (base : gmap string Value) (stdin : string) :
  fst (mergeValuesFrom E valueFiles base stdin)
  = match readDocuments E valueFiles stdin with
    | inl err => inl err
    | inr documents => inr (foldl mergeMaps base documents)
    end.
Proof.
  revert base stdin.
  induction valueFiles as [|filePath rest IH]; intros base stdin; [done|].
  cbn [mergeValuesFrom readDocuments].
  destruct (readFile E filePath stdin) as [[err|bytes] stdin']; [done|].
  destruct (yamlUnmarshalMap E bytes) as [err|document]; [done|].
  rewrite IH. by destruct (readDocuments E rest stdin').
Qed.

(** C6.  [mergeValues] folds [mergeMaps] from the left over the override
    documents, starting from the empty document.  Per key, [mergeMaps]
    merges two mappings recursively and otherwise lets the incoming value
    replace the existing one; keys of one side only are kept.  So
    [{a:{x:1}}] merged with [{a:{y:2}}] is [{a:{x:1,y:2}}], and a value of
    the later document that is not a mapping always wins. *)
Theorem merge_is_left_fold_of_recursive_merge :
  (∀ E valueFiles stdin,
     fst (mergeValues E valueFiles stdin)
     = match readDocuments E valueFiles stdin with
       | inl err => inl err
       | inr documents => inr (foldl mergeMaps ∅ documents)
       end)
  ∧ (∀ a b k, mergeMaps a b !! k = mergedAt mergeMaps (a !! k) (b !! k))
  ∧ mergeMaps {[ "a" := VMap {[ "x" := VInt 1 ]} ]}
              {[ "a" := VMap {[ "y" := VInt 2 ]} ]}
    = {[ "a" := VMap (<[ "y" := VInt 2 ]> {[ "x" := VInt 1 ]}) ]}
  ∧ (∀ a b k v,
       b !! k = Some v → (∀ m, v ≠ VMap m) → mergeMaps a b !! k = Some v)
  ∧ (∀ a b k x v,
       a !! k = Some x → b !! k = Some v → (∀ m, x ≠ VMap m) →
       mergeMaps a b !! k = Some v).
Proof.
  split; [|split; [|split; [|split]]].
  - intros E valueFiles stdin. apply mergeValuesFrom_fold.
  - apply mergeMaps_lookup.
  - reflexivity.
  - intros a b k v Hb Hscalar. rewrite mergeMaps_lookup, Hb.
    unfold mergedAt.
    destruct v; try by destruct (a !! k) as [[]|].
    by destruct (Hscalar m).
  - intros a b k x v Ha Hb Hscalar. rewrite mergeMaps_lookup, Ha, Hb.
    unfold mergedAt. destruct x; try done. by destruct (Hscalar m).
Qed.

(** ** Normalizing *)

Lemma parseDocuments_parseAll E (documents : list string)
    (configDocs : list Value) :
  parseDocuments E documents configDocs
  = match parseAll E documents with
    | inl err => inl err
    | inr configs => inr (configDocs ++ remaining configs)
    end.
Proof.
  revert configDocs.
  induction documents as [|doc rest IH]; intros configDocs.
  { simpl. by rewrite app_nil_r. }
  cbn [parseDocuments parseAll].
  destruct (yamlUnmarshal E doc) as [err|config]; [done|].
  destruct config; rewrite IH; destruct (parseAll E rest); try done;
    unfold remaining; simpl; by rewrite <- app_assoc.
Qed.

(** The loop body, by the entry the file contributes. *)
Lemma normalizeFile_entry E (fpath template : string)
    (out : gmap string Value) :
  normalizeFile E fpath template out
  = match normalizedEntry E fpath template with
    | inl err => inl (Errorf ("Unmarshal '" +:+ fpath +:+ "' failed: ") err)
    | inr (Some v) => inr (<[Base fpath := v]> out)
    | inr None => inr out
    end.
Proof.
  unfold normalizeFile, normalizedEntry.
  destruct (isYamlPath fpath); [|done].
  rewrite parseDocuments_parseAll.
  destruct (parseAll E _) as [err|configs]; [done|].
  rewrite app_nil_l.
  by destruct (remaining configs) as [|d [|d' rest]].
Qed.

(** A file writes under its own base name only. *)
Lemma normalizeFile_other E (fpath template : string)
    (out out' : gmap string Value) (k : string) :
  normalizeFile E fpath template out = inr out' →
  k ≠ Base fpath → out' !! k = out !! k.
Proof.
  rewrite normalizeFile_entry. intros Hstep Hk.
  destruct (normalizedEntry E fpath template) as [err|[v|]]; [done| |].
  - injection Hstep as <-. by rewrite lookup_insert_ne.
  - by injection Hstep as <-.
Qed.

Lemma normalizeFiles_other E (files : list (string * string))
    (out out' : gmap string Value) (k : string) :
  normalizeFiles E files out = inr out' →
  (∀ file, file ∈ files → k ≠ Base (fst file)) →
  out' !! k = out !! k.
Proof.
  revert out. induction files as [|[f t] rest IH]; intros out Hrun Hk.
  { by injection Hrun as <-. }
  cbn [normalizeFiles] in Hrun.
  destruct (normalizeFile E f t out) as [err|out1] eqn:Hstep; [done|].
  rewrite (IH out1 Hrun).
  - apply (normalizeFile_other _ _ _ _ _ _ Hstep).
    apply (Hk (f, t)). apply elem_of_cons. by left.
  - intros file Hin. apply Hk. apply elem_of_cons. by right.
Qed.

(** After the loop, a file whose base name no other file shares has its
    entry under that name; when it contributes none the name is as it
    was before the loop. *)
Lemma normalizeFiles_lookup E (files : list (string * string))
    (out out' : gmap string Value) (fpath template : string)
    (entry : option Value) :
  normalizeFiles E files out = inr out' →
  NoDup (map fst files) →
  (fpath, template) ∈ files →
  (∀ file, file ∈ files → Base (fst file) = Base fpath → fst file = fpath) →
  normalizedEntry E fpath template = inr entry →
  out' !! Base fpath
  = match entry with
    | Some v => Some v
    | None => out !! Base fpath
    end.
Proof.
  revert out.
  induction files as [|[f t] rest IH]; intros out Hrun Hnd Hin Huniq Hentry.
  { by apply elem_of_nil in Hin. }
  cbn [normalizeFiles] in Hrun.
  destruct (normalizeFile E f t out) as [err|out1] eqn:Hstep; [done|].
  cbn [map fst] in Hnd. apply NoDup_cons in Hnd as [Hfresh Hnd].
  apply elem_of_cons in Hin as [Heq|Hin].
  - injection Heq as <- <-.
    rewrite (normalizeFiles_other _ _ _ _ _ Hrun).
    + rewrite normalizeFile_entry, Hentry in Hstep.
      destruct entry as [v|]; injection Hstep as <-; [|done].
      by rewrite lookup_insert_eq.
    + intros [f' t'] Hin' Hbase. apply Hfresh.
      assert (f' = fpath) as Hf.
      { apply (Huniq (f', t')); [apply elem_of_cons; by right | done]. }
      rewrite <- Hf. apply list_elem_of_fmap. by exists (f', t').
  - rewrite (IH out1 Hrun Hnd Hin); [|
      intros file Hfile; apply Huniq, elem_of_cons; by right | done].
    destruct entry as [v|]; [done|].
    apply (normalizeFile_other _ _ _ _ _ _ Hstep). intros Hbase.
    apply Hfresh.
    assert (f = fpath) as ->.
    { apply (Huniq (f, t)); [apply elem_of_cons; by left | done]. }
    apply list_elem_of_fmap. by exists (fpath, template).
Qed.

(** C7.  What [UnmarshalYamlMap] holds for a rendered file whose base
    name no other file shares.  A [.yml] or [.yaml] file is split on the
    document separator and the chunks that parse to nil are dropped: one
    remaining chunk is stored as it is, several are stored as their
    sequence in the order of the file, and with none the base name is
    absent.  Any other file is stored as its raw text.  The loop body
    does the same to the mapping it is given, whatever that holds. *)
Theorem normalizer_stores_remaining_chunks E
    (rendered : gmap string string) (out : gmap string Value)
    (fpath template : string) (entry : option Value) :
  UnmarshalYamlMap E rendered = inr out →
  rendered !! fpath = Some template →
  (∀ other, is_Some (rendered !! other) →
            Base other = Base fpath → other = fpath) →
  normalizedEntry E fpath template = inr entry →
  out !! Base fpath = entry
  ∧ (∀ out0,
       normalizeFile E fpath template out0
       = inr match entry with
             | Some v => <[Base fpath := v]> out0
             | None => out0
             end)
  ∧ (Ext fpath ≠ ".yml" → Ext fpath ≠ ".yaml" →
     entry = Some (VStr template))
  ∧ (Ext fpath = ".yml" ∨ Ext fpath = ".yaml" →
     ∃ configs,
       parseAll E (Split template documentSeparator) = inr configs
       ∧ match remaining configs with
         | [] => entry = None
         | [document] => entry = Some document
         | documents => entry = Some (VSeq documents)
         end).
Proof.
  intros Hrun Hin Huniq Hentry. split; [|split; [|split]].
  - unfold UnmarshalYamlMap in Hrun.
    rewrite (normalizeFiles_lookup E _ _ _ fpath template entry Hrun);
      [by destruct entry| | | |done].
    + rewrite range_perm. apply NoDup_fst_map_to_list.
    + rewrite range_perm. by apply elem_of_map_to_list.
    + intros [f t] Hf. rewrite range_perm in Hf.
      apply elem_of_map_to_list in Hf. apply Huniq. by exists t.
  - intros out0. rewrite normalizeFile_entry, Hentry. by destruct entry.
  - intros Hyml Hyaml. unfold normalizedEntry, isYamlPath in Hentry.
    apply String.eqb_neq in Hyml, Hyaml. rewrite Hyml, Hyaml in Hentry.
    by injection Hentry as <-.
  - intros Hext. unfold normalizedEntry, isYamlPath in Hentry.
    assert (String.eqb (Ext fpath) ".yml" || String.eqb (Ext fpath) ".yaml"
            = true) as Hyaml.
    { apply orb_true_iff. by rewrite !String.eqb_eq. }
    rewrite Hyaml in Hentry.
    destruct (parseAll E _) as [err|configs]; [done|].
    injection Hentry as <-. exists configs. split; [done|].
    by destruct (remaining configs) as [|d [|d' rest]].
Qed.

Lemma normalizer_stores_remaining_chunks_witness :
  UnmarshalYamlMap
    (sampleEnv (inr helperModules) emptyEngine range_forward range_forward)
    sampleRendered
  = inr sampleNormalized
  ∧ sampleNormalized !! Base "chart/templates/multi.yaml"
    = Some (VSeq [VStr "kind: Service"; VStr "kind: Deployment"]).
Proof.
  assert (∀ other, is_Some (sampleRendered !! other) →
            Base other = Base "chart/templates/multi.yaml" →
            other = "chart/templates/multi.yaml") as Huniq.
  { intros other [t Hother] Hbase.
    apply elem_of_map_to_list in Hother. vm_compute in Hother.
    repeat (apply elem_of_cons in Hother as [Heq|Hother];
            [injection Heq as -> ->; vm_compute in Hbase;
             first [discriminate Hbase | reflexivity]|]).
    apply elem_of_nil in Hother. destruct Hother. }
  assert (UnmarshalYamlMap
            (sampleEnv (inr helperModules) emptyEngine
                       range_forward range_forward)
            sampleRendered
          = inr sampleNormalized) as Hrun.
  { vm_compute. reflexivity. }
  assert (sampleRendered !! "chart/templates/multi.yaml"
          = Some ("kind: Service" +:+ documentSeparator
                  +:+ documentSeparator +:+ "kind: Deployment")) as Hin.
  { vm_compute. reflexivity. }
  assert (normalizedEntry
            (sampleEnv (inr helperModules) emptyEngine
                       range_forward range_forward)
            "chart/templates/multi.yaml"
            ("kind: Service" +:+ documentSeparator
             +:+ documentSeparator +:+ "kind: Deployment")
          = inr (Some (VSeq [VStr "kind: Service";
                             VStr "kind: Deployment"]))) as Hentry.
  { vm_compute. reflexivity. }
  split; [exact Hrun|].
  exact (proj1 (normalizer_stores_remaining_chunks
                  (sampleEnv (inr helperModules) emptyEngine
                             range_forward range_forward)
                  sampleRendered sampleNormalized
                  "chart/templates/multi.yaml"
                  ("kind: Service" +:+ documentSeparator
                   +:+ documentSeparator +:+ "kind: Deployment")
                  (Some (VSeq [VStr "kind: Service";
                               VStr "kind: Deployment"]))
                  Hrun Hin Huniq Hentry)).
Defined.

(** ** The command *)

(** Every query of a run goes to the engine with the input the function
    was given. *)
Lemma evalPolicyOnInput_calls E policy namespace input :
  engineCalls (fst (evalPolicyOnInput E policy namespace input))
  = map (λ q, (queryStringOf namespace q, input))
        (visited E policy namespace input
                 (rangeQueries E (getQueryList E policy))).
Proof.
  unfold evalPolicyOnInput, evalQueryList.
  pose proof (evalLoop_calls E policy namespace input
                (rangeQueries E (getQueryList E policy)) initialState)
    as Hcalls.
  destruct (evalLoop _ _ _ _ _ _) as [st [err|]]; [done|].
  destruct (Nat.leb _ 0); [done|].
  destruct (reportLoop _ false) as [lines []]; done.
Qed.

(** C8.  Whenever [Execute] hands a query to the engine, the values were
    merged, the chart was rendered and the rendered files were
    normalized, and the input of the query is the normalized manifests
    with the merged values stored under the key [values]: that key holds
    the merged document, every key of the manifests is still a key, and
    every other key holds what the normalizer put there. *)
Theorem engine_input_carries_values E (s : EvalCommand) (stdin : string)
    (call : string * Value) :
  call ∈ engineCalls (fst (Execute E s stdin)) →
  ∃ valuesConfig renderedOutput normalized,
    fst (mergeValues E (Values s) stdin) = inr valuesConfig
    ∧ validateAndRender E (Template s) valuesConfig = inr renderedOutput
    ∧ UnmarshalYamlMap E renderedOutput = inr normalized
    ∧ Execute E s stdin
      = evalPolicyOnInput E (Policy s) (Namespace (setDefaults s))
          (VMap (<[valuesHashName := VMap valuesConfig]> normalized))
    ∧ snd call = VMap (<[valuesHashName := VMap valuesConfig]> normalized)
    ∧ <[valuesHashName := VMap valuesConfig]> normalized !! "values"
      = Some (VMap valuesConfig)
    ∧ (∀ k, is_Some (normalized !! k) →
            is_Some (<[valuesHashName := VMap valuesConfig]> normalized
                     !! k))
    ∧ (∀ k, k ≠ "values" →
            <[valuesHashName := VMap valuesConfig]> normalized !! k
            = normalized !! k).
Proof.
  unfold Execute. cbn [Policy Values Template setDefaults].
  destruct (String.eqb (Policy s) "");
    [by intros Hcall%elem_of_nil|].
  destruct (Open E (Policy s)); [by intros Hcall%elem_of_nil|].
  destruct (fst (mergeValues E (Values s) stdin))
    as [err|valuesConfig] eqn:Hmerge; [by intros Hcall%elem_of_nil|].
  destruct (validateAndRender E (Template s) valuesConfig)
    as [err|renderedOutput] eqn:Hrender; [by intros Hcall%elem_of_nil|].
  destruct (UnmarshalYamlMap E renderedOutput)
    as [err|normalized] eqn:Hnormal; [by intros Hcall%elem_of_nil|].
  intros Hcall. exists valuesConfig, renderedOutput, normalized.
  repeat split; try done.
  - rewrite evalPolicyOnInput_calls in Hcall.
    by apply list_elem_of_fmap in Hcall as (q & -> & _).
  - apply lookup_insert_eq.
  - intros k Hk. unfold valuesHashName.
    destruct (decide (k = "values")) as [->|Hne].
    + rewrite lookup_insert_eq. by eexists.
    + by rewrite lookup_insert_ne.
  - intros k Hk. by rewrite lookup_insert_ne.
Qed.

Lemma engine_input_carries_values_witness :
  ("data.main.expect[a]", sampleInput)
  ∈ engineCalls
      (fst (Execute (sampleEnv (inr twoTestModules)
                               (engineOf ["data.main.expect[a]"])
                               range_forward range_forward)
                    sampleCommand ""))
  ∧ ∃ valuesConfig normalized,
      fst (mergeValues (sampleEnv (inr twoTestModules)
                                  (engineOf ["data.main.expect[a]"])
                                  range_forward range_forward)
                       ["values.yaml"] "")
      = inr valuesConfig
      ∧ sampleInput
        = VMap (<[valuesHashName := VMap valuesConfig]> normalized).
Proof.
  assert (("data.main.expect[a]", sampleInput)
          ∈ engineCalls
              (fst (Execute (sampleEnv (inr twoTestModules)
                                       (engineOf ["data.main.expect[a]"])
                                       range_forward range_forward)
                            sampleCommand ""))) as Hcall.
  { vm_compute. apply list_elem_of_here. }
  split; [exact Hcall|].
  destruct (engine_input_carries_values
              (sampleEnv (inr twoTestModules)
                         (engineOf ["data.main.expect[a]"])
                         range_forward range_forward)
              sampleCommand "" ("data.main.expect[a]", sampleInput) Hcall)
    as (valuesConfig & renderedOutput & normalized
        & Hmerge & _ & _ & _ & Hinput & _).
  exists valuesConfig, normalized. split; [exact Hmerge | exact Hinput].
Defined.

(** * Further properties of the package *)

(** ** Where the evaluation loop stops *)

Lemma first_stop {A} (f : A → bool) (l : list A) :
  forallb f l = true
  ∨ ∃ pre x post, l = pre ++ x :: post ∧ forallb f pre = true ∧ f x = false.
Proof.
  induction l as [|y l IH]; [by left|].
  simpl. destruct (f y) eqn:Hy.
  - destruct IH as [Hall|(pre & x & post & -> & Hpre & Hx)]; [by left|].
    right. exists (y :: pre), x, post. simpl. by rewrite Hy.
  - right. by exists [], y, l.
Qed.

Lemma evalLoop_app E policy namespace input
    (pre rest : list (string * Z)) st :
  forallb (passable E policy namespace input) pre = true →
  evalLoop E policy namespace input (pre ++ rest) st
  = evalLoop E policy namespace input rest
             (fst (evalLoop E policy namespace input pre st)).
Proof.
  revert st. induction pre as [|[q c] pre IH]; intros st Hpre; [done|].
  simpl in Hpre. apply andb_true_iff in Hpre as [Hq Hpre].
  unfold passable, evaluates in Hq. simpl in Hq.
  apply andb_true_iff in Hq as [Hc Hev].
  cbn [app evalLoop]. assert ((1 <? c) = false) as -> by lia.
  destruct (regoEval E policy (queryStringOf namespace q) input);
    [done..|].
  by apply IH.
Qed.

(** The state after a passable beginning of the loop. *)
Lemma evalLoop_passable_prefix E policy namespace input
    (pre : list (string * Z)) st :
  forallb (passable E policy namespace input) pre = true →
  stdout (fst (evalLoop E policy namespace input pre st)) = stdout st
  ∧ engineCalls (fst (evalLoop E policy namespace input pre st))
    = engineCalls st
      ++ map (λ e : string * Z, (queryStringOf namespace (fst e), input))
             pre.
Proof.
  intros Hpre. split.
  - apply evalLoop_stdout_complete. by apply evalLoop_completes.
  - rewrite evalLoop_calls, visited_all by done. by rewrite map_map.
Qed.

Lemma evalLoop_engine_error E policy namespace input
    (pre post : list (string * Z)) id c st err :
  forallb (passable E policy namespace input) pre = true →
  c ≤ 1 →
  engineError (regoEval E policy (queryStringOf namespace id) input)
  = Some err →
  let run :=
    evalLoop E policy namespace input (pre ++ (id, c) :: post) st in
  snd run = Some err
  ∧ stdout (fst run) = stdout st
  ∧ engineCalls (fst run)
    = engineCalls st
      ++ map (λ e : string * Z, (queryStringOf namespace (fst e), input))
             pre
      ++ [(queryStringOf namespace id, input)].
Proof.
  intros Hpre Hc Herr. cbv zeta. rewrite evalLoop_app by done.
  destruct (evalLoop_passable_prefix E policy namespace input pre st Hpre)
    as [Hout Hcalls].
  cbn [evalLoop]. assert ((1 <? c) = false) as -> by lia.
  destruct (regoEval E policy (queryStringOf namespace id) input);
    simpl in Herr; [| |done]; injection Herr as <-; simpl;
    rewrite Hout, Hcalls; by rewrite <- app_assoc.
Qed.

Lemma engineError_cases (response : EngineResponse) context cause :
  engineError response = Some (Errorf context cause) →
  (context = "failed preparing for eval on policies: "
   ∧ response = PrepareFailed cause)
  ∨ (context = "failed eval on policies: " ∧ response = EvalFailed cause).
Proof.
  destruct response; simpl; intros H; [| |done];
    injection H as <- <-; auto.
Qed.

Lemma not_passable E policy namespace input id c :
  passable E policy namespace input (id, c) = false →
  1 < c
  ∨ (c ≤ 1
     ∧ ∃ err,
         engineError (regoEval E policy (queryStringOf namespace id) input)
         = Some err).
Proof.
  unfold passable, evaluates. simpl.
  destruct (Z.leb_spec c 1) as [Hc|Hc]; [|left; lia].
  simpl. intros Hev. right. split; [done|].
  destruct (regoEval E policy (queryStringOf namespace id) input);
    simpl; eauto. done.
Qed.

(** The four ways [evalPolicyOnInput] can go, from the point where the
    mapping is known. *)
Lemma evalQueryList_cases E policy namespace input
    (queryList : gmap string Z) :
  let run := evalQueryList E policy namespace input queryList in
  (queryList = ∅ ∧ run = (initialState, Some UnmatchedQuery))
  ∨ (queryList ≠ ∅
     ∧ forallb (passable E policy namespace input) (map_to_list queryList)
       = true)
  ∨ (∃ pre id c post,
       rangeQueries E queryList = pre ++ (id, c) :: post
       ∧ forallb (passable E policy namespace input) pre = true
       ∧ 1 < c
       ∧ snd run = Some DuplicatePolicyFailure
       ∧ stdout (fst run) = [DuplicateBanner; DuplicateKey id])
  ∨ (∃ pre id c post err,
       rangeQueries E queryList = pre ++ (id, c) :: post
       ∧ forallb (passable E policy namespace input) pre = true
       ∧ c ≤ 1
       ∧ engineError (regoEval E policy (queryStringOf namespace id) input)
         = Some err
       ∧ snd run = Some err
       ∧ stdout (fst run) = []).
Proof.
  cbv zeta. destruct (decide (queryList = ∅)) as [->|Hne].
  { left. by rewrite evalQueryList_empty. }
  right.
  destruct (first_stop (passable E policy namespace input)
              (rangeQueries E queryList))
    as [Hall|(pre & [id c] & post & Horder & Hpre & Hstop)].
  { left. split; [done|]. by rewrite <- range_all_passable. }
  right. unfold evalQueryList. rewrite Horder.
  apply not_passable in Hstop as [Hdup|[Hc [err Herr]]].
  - left. exists pre, id, c, post.
    destruct (evalLoop_duplicate E policy namespace input pre id c post
                initialState Hpre Hdup) as (H1 & H2 & _).
    destruct (evalLoop _ _ _ _ _ _) as [st e]. simpl in *. subst e.
    by repeat split.
  - right. exists pre, id, c, post, err.
    destruct (evalLoop_engine_error E policy namespace input pre post id c
                initialState err Hpre Hc Herr) as (H1 & H2 & _).
    destruct (evalLoop _ _ _ _ _ _) as [st e]. simpl in *. subst e.
    by repeat split.
Qed.

(** ** What a run returns, prints and asks *)

(** X1.  Every way [evalPolicyOnInput] can end.  It returns [nil] only
    after every discovered test passed and the success banner was
    printed last; [PolicyFailure] only when some test failed, after the
    failure banner; [DuplicatePolicyFailure] only for an identifier
    counted more than once, having printed the two duplicate lines and
    nothing else; [UnmatchedQuery] only for an empty mapping, having
    done nothing; and otherwise the engine's error for the query of a
    discovered test, wrapped by the stage that failed, having printed
    nothing.  It returns no other error. *)
Theorem evalPolicyOnInput_outcomes E policy namespace input :
  let run := evalPolicyOnInput E policy namespace input in
  let queryList := getQueryList E policy in
  match snd run with
  | None =>
      queryList ≠ ∅
      ∧ (∀ id, is_Some (queryList !! id) →
               outcome E policy input (queryStringOf namespace id) = true)
      ∧ last (stdout (fst run)) = Some SuccessBanner
  | Some PolicyFailure =>
      (∃ id, is_Some (queryList !! id)
             ∧ outcome E policy input (queryStringOf namespace id) = false)
      ∧ last (stdout (fst run)) = Some FailureBanner
  | Some DuplicatePolicyFailure =>
      ∃ id c, queryList !! id = Some c ∧ 1 < c
              ∧ stdout (fst run) = [DuplicateBanner; DuplicateKey id]
  | Some UnmatchedQuery => queryList = ∅ ∧ fst run = initialState
  | Some (Errorf context cause) =>
      stdout (fst run) = []
      ∧ ∃ id,
          is_Some (queryList !! id)
          ∧ ((context = "failed preparing for eval on policies: "
              ∧ regoEval E policy (queryStringOf namespace id) input
                = PrepareFailed cause)
             ∨ (context = "failed eval on policies: "
                ∧ regoEval E policy (queryStringOf namespace id) input
                  = EvalFailed cause))
  | Some _ => False
  end.
Proof.
  cbv zeta. unfold evalPolicyOnInput.
  set (queryList := getQueryList E policy).
  destruct (evalQueryList_cases E policy namespace input queryList)
    as [[Hemp Hrun]
       |[[Hne Hall]
        |[(pre & id & c & post & Horder & _ & Hdup & Herr & Hout)
         |(pre & id & c & post & err & Horder & _ & _ & Heng & Herr
           & Hout)]]].
  - by rewrite Hrun.
  - destruct (evalQueryList_complete E policy namespace input queryList
                Hall Hne) as (Herr & Hout & _).
    rewrite Herr, Hout, last_snoc.
    destruct (forallb snd _) eqn:Hpass.
    + split; [done|]. split; [|done]. by apply all_pass.
    + split; [|done].
      apply forallb_false in Hpass as ([k b] & Hin & Hb).
      simpl in Hb. subst b. unfold expectedResults in Hin.
      apply list_elem_of_fmap in Hin as ([id c] & Heq & Hin).
      simpl in Heq. injection Heq as -> Hfail.
      exists id. split; [|done]. exists c. by apply elem_of_map_to_list.
  - rewrite Herr. exists id, c. split; [|done].
    apply elem_of_map_to_list. rewrite <- (range_perm (rangeQueries E)).
    rewrite Horder. apply elem_of_app. right. apply elem_of_cons. by left.
  - rewrite Herr.
    assert (is_Some (queryList !! id)) as Hid.
    { exists c. apply elem_of_map_to_list.
      rewrite <- (range_perm (rangeQueries E)), Horder.
      apply elem_of_app. right. apply elem_of_cons. by left. }
    destruct (regoEval E policy (queryStringOf namespace id) input)
      as [cause|cause|] eqn:Hresp; simpl in Heng; [| |done];
      injection Heng as <-; (split; [done|]); exists id; split; auto.
Qed.

Lemma visited_prefix E policy namespace input (l : list (string * Z)) :
  ∃ rest, map fst l = visited E policy namespace input l ++ rest.
Proof.
  induction l as [|[q c] l [rest IH]]; [by exists []|].
  simpl. destruct (1 <? c); [by eexists|].
  destruct (evaluates E policy namespace input q).
  - exists rest. simpl. by rewrite IH.
  - by exists (map fst l).
Qed.

Lemma visited_NoDup E policy namespace input (queryList : gmap string Z) :
  NoDup (visited E policy namespace input (rangeQueries E queryList)).
Proof.
  destruct (visited_prefix E policy namespace input
              (rangeQueries E queryList)) as [rest Hrest].
  assert (NoDup (map fst (rangeQueries E queryList))) as Hnd.
  { rewrite range_perm. apply NoDup_fst_map_to_list. }
  rewrite Hrest in Hnd. by apply NoDup_app in Hnd as [Hnd _].
Qed.

Lemma visited_discovered E policy namespace input
    (queryList : gmap string Z) id :
  id ∈ visited E policy namespace input (rangeQueries E queryList) →
  is_Some (queryList !! id).
Proof.
  destruct (visited_prefix E policy namespace input
              (rangeQueries E queryList)) as [rest Hrest].
  intros Hin.
  assert (id ∈ map fst (rangeQueries E queryList)) as Hid.
  { rewrite Hrest. apply elem_of_app. by left. }
  rewrite range_perm in Hid.
  apply list_elem_of_fmap in Hid as ([id' c] & -> & Hid).
  exists c. by apply elem_of_map_to_list.
Qed.

(** X2.  A query the engine cannot prepare or evaluate ends the run on
    the spot: when the tests visited before it were evaluated, the run
    returns the engine's error wrapped by the failing stage, prints
    nothing (no PASS or FAIL line, though earlier tests were evaluated),
    has asked the engine for those tests and the failing one only, and
    keeps no outcome for the failing test. *)
Theorem engine_failure_ends_the_run E policy namespace input
    (pre post : list (string * Z)) id c err :
  rangeQueries E (getQueryList E policy) = pre ++ (id, c) :: post →
  forallb (passable E policy namespace input) pre = true →
  c ≤ 1 →
  engineError (regoEval E policy (queryStringOf namespace id) input)
  = Some err →
  let run := evalPolicyOnInput E policy namespace input in
  snd run = Some err
  ∧ stdout (fst run) = []
  ∧ engineCalls (fst run)
    = map (λ e : string * Z, (queryStringOf namespace (fst e), input)) pre
      ++ [(queryStringOf namespace id, input)]
  ∧ testResults (fst run) !! queryStringOf namespace id = None.
Proof.
  intros Horder Hpre Hc Herr. cbv zeta.
  unfold evalPolicyOnInput, evalQueryList. rewrite Horder.
  destruct (evalLoop_engine_error E policy namespace input pre post id c
              initialState err Hpre Hc Herr) as (H1 & H2 & H3).
  assert (testResults
            (fst (evalLoop E policy namespace input
                    (pre ++ (id, c) :: post) initialState))
          !! queryStringOf namespace id = None) as H4.
  { rewrite evalLoop_app by done. cbn [evalLoop].
    assert ((1 <? c) = false) as -> by lia.
    assert (testResults
              (fst (evalLoop E policy namespace input pre initialState))
            !! queryStringOf namespace id = None) as Hnone.
    { rewrite evalLoop_testResults by done.
      rewrite decide_False; [done|].
      intros Hin. apply list_elem_of_fmap in Hin as ([id' c'] & Heq & Hin).
      apply queryStringOf_inj in Heq. simpl in Heq. subst id'.
      assert (NoDup (map fst (pre ++ (id, c) :: post))) as Hnd.
      { rewrite <- Horder, range_perm. apply NoDup_fst_map_to_list. }
      rewrite map_app in Hnd. apply NoDup_app in Hnd as (_ & Hnd & _).
      apply (Hnd id).
      - apply list_elem_of_fmap. by exists (id, c').
      - simpl. apply elem_of_cons. by left. }
    destruct (regoEval E policy (queryStringOf namespace id) input);
      simpl in Herr; [done|done|done]. }
  destruct (evalLoop _ _ _ _ _ _) as [st e]. simpl in *. by subst e.
Qed.

Lemma engine_failure_ends_the_run_witness :
  snd (evalPolicyOnInput
         (sampleEnv (inr twoTestModules)
                    (engineRejecting "data.main.assert[b]")
                    range_forward range_forward)
         "policy.rego" "main" VNil)
  = Some (Errorf "failed eval on policies: "
                 (External "eval_internal_error"))
  ∧ stdout
      (fst (evalPolicyOnInput
              (sampleEnv (inr twoTestModules)
                         (engineRejecting "data.main.assert[b]")
                         range_forward range_forward)
              "policy.rego" "main" VNil))
    = [].
Proof.
  pose proof (engine_failure_ends_the_run
                (sampleEnv (inr twoTestModules)
                           (engineRejecting "data.main.assert[b]")
                           range_forward range_forward)
                "policy.rego" "main" VNil
                [("expect[a]", 1)] [] "assert[b]" 1
                (Errorf "failed eval on policies: "
                        (External "eval_internal_error"))
                eq_refl eq_refl ltac:(lia) eq_refl)
    as (Herr & Hout & _).
  split; [exact Herr | exact Hout].
Defined.

(** X3.  In every run, whatever its end, the engine is asked at most
    once per query, always with the input document of the run, and only
    for the queries [data.<namespace>.<id>] of discovered tests.  A run
    that gets to its report (it returns [nil] or [PolicyFailure]) has
    asked for every discovered test exactly once. *)
Theorem each_test_is_queried_at_most_once E policy namespace input :
  let run := evalPolicyOnInput E policy namespace input in
  NoDup (map fst (engineCalls (fst run)))
  ∧ (∀ call, call ∈ engineCalls (fst run) →
       snd call = input
       ∧ ∃ id, is_Some (getQueryList E policy !! id)
               ∧ fst call = queryStringOf namespace id)
  ∧ (snd run = None ∨ snd run = Some PolicyFailure →
     map fst (engineCalls (fst run))
     ≡ₚ map (λ e : string * Z, queryStringOf namespace (fst e))
            (map_to_list (getQueryList E policy))).
Proof.
  cbv zeta. rewrite evalPolicyOnInput_calls. split; [|split].
  - rewrite map_map. simpl.
    apply (@NoDup_fmap_2 _ _ _ (queryStringOf_inj namespace)).
    apply visited_NoDup.
  - intros call Hcall.
    apply list_elem_of_fmap in Hcall as (id & -> & Hid). split; [done|].
    exists id. split; [|done]. by eapply visited_discovered.
  - intros Hend. rewrite <- evalPolicyOnInput_calls.
    unfold evalPolicyOnInput in *.
    destruct (evalQueryList_cases E policy namespace input
                (getQueryList E policy))
      as [[_ Hrun]
         |[[Hne Hall]
          |[(pre & id & c & post & _ & _ & _ & Herr & _)
           |(pre & id & c & post & err & _ & _ & _ & Heng & Herr & _)]]].
    + rewrite Hrun in Hend. by destruct Hend.
    + destruct (evalQueryList_complete E policy namespace input
                  (getQueryList E policy) Hall Hne) as (_ & _ & _ & ->).
      rewrite map_map. simpl. by rewrite range_perm.
    + rewrite Herr in Hend. by destruct Hend.
    + rewrite Herr in Hend.
      destruct (regoEval E policy (queryStringOf namespace id) input);
        simpl in Heng; [| |done]; injection Heng as <-; by destruct Hend.
Qed.

Lemma each_test_is_queried_at_most_once_witness :
  map fst
    (engineCalls
       (fst (evalPolicyOnInput
               (sampleEnv (inr twoTestModules)
                          (engineOf ["data.main.expect[a]"])
                          range_backward range_forward)
               "policy.rego" "main" VNil)))
  ≡ₚ map (λ e : string * Z, queryStringOf "main" (fst e))
         (map_to_list
            (getQueryList
               (sampleEnv (inr twoTestModules)
                          (engineOf ["data.main.expect[a]"])
                          range_backward range_forward)
               "policy.rego")).
Proof.
  apply (each_test_is_queried_at_most_once
           (sampleEnv (inr twoTestModules)
                      (engineOf ["data.main.expect[a]"])
                      range_backward range_forward)
           "policy.rego" "main" VNil).
  right. reflexivity.
Defined.

(** ** Traces and result sets *)

Lemma evalLoop_written E policy namespace input
    (queries : list (string * Z)) st :
  let run := evalLoop E policy namespace input queries st in
  written (fst run)
  = written st
    ++ concat (map (λ q, traceOf E policy input (queryStringOf namespace q))
                   (visited E policy namespace input queries))
  ∧ results (fst run)
    = results st
      ++ concat (map (λ q, resultSetOf E policy input
                             (queryStringOf namespace q))
                     (visited E policy namespace input queries)).
Proof.
  cbv zeta. revert st.
  induction queries as [|[q c] rest IH]; intros st.
  { simpl. by rewrite !app_nil_r. }
  cbn [evalLoop visited]. destruct (1 <? c).
  { simpl. by rewrite !app_nil_r. }
  assert (∀ (tail : list string),
    concat (map (λ q0, traceOf E policy input (queryStringOf namespace q0))
                (q :: tail))
    = traceOf E policy input (queryStringOf namespace q)
      ++ concat (map (λ q0, traceOf E policy input
                              (queryStringOf namespace q0)) tail)) as Ht
    by done.
  assert (∀ (tail : list string),
    concat (map (λ q0, resultSetOf E policy input
                         (queryStringOf namespace q0)) (q :: tail))
    = resultSetOf E policy input (queryStringOf namespace q)
      ++ concat (map (λ q0, resultSetOf E policy input
                              (queryStringOf namespace q0)) tail)) as Hr
    by done.
  rewrite Ht, Hr. unfold evaluates.
  unfold traceOf at 1, resultSetOf at 1.
  destruct (regoEval E policy (queryStringOf namespace q) input)
    as [e|e|rs tr].
  - simpl. by rewrite !app_nil_r.
  - simpl. by rewrite !app_nil_r.
  - destruct (IH (recordResult (queryStringOf namespace q) rs tr
                    (called (queryStringOf namespace q) input st)))
      as [-> ->].
    simpl. rewrite <- !app_assoc. split; [done|].
    destruct rs as [|r rs]; simpl; [done | by rewrite <- app_assoc].
Qed.

(** X4.  What a run writes to its writer is the traces of the queries it
    handed to the engine, one after the other in the order of the calls,
    whether the test passed or failed, and nothing else; the result sets
    it collects are those of the same queries in the same order.  A
    query the engine rejects contributes neither. *)
Theorem traces_follow_the_engine_calls E policy namespace input :
  let run := evalPolicyOnInput E policy namespace input in
  written (fst run)
  = concat (map (λ call, traceOf E policy input (fst call))
                (engineCalls (fst run)))
  ∧ results (fst run)
    = concat (map (λ call, resultSetOf E policy input (fst call))
                  (engineCalls (fst run))).
Proof.
  cbv zeta. rewrite evalPolicyOnInput_calls, !map_map. simpl.
  unfold evalPolicyOnInput, evalQueryList.
  destruct (evalLoop_written E policy namespace input
              (rangeQueries E (getQueryList E policy)) initialState)
    as [Hw Hr].
  destruct (evalLoop _ _ _ _ _ _) as [st [err|]]; [done|].
  destruct (Nat.leb _ 0); [done|].
  by destruct (reportLoop _ false) as [lines []].
Qed.

(** ** Discovery, beyond the naming convention *)

Lemma filter_length_Permutation {A} (f : A → bool) (l1 l2 : list A) :
  l1 ≡ₚ l2 → length (List.filter f l1) = length (List.filter f l2).
Proof.
  induction 1 as [|x l1 l2 _ IH|x y l|l1 l2 l3 _ IH1 _ IH2]; simpl.
  - done.
  - destruct (f x); simpl; by rewrite IH.
  - by destruct (f x), (f y).
  - by rewrite IH1.
Qed.

Lemma concat_map_Permutation {A B} (f : A → list B) (l1 l2 : list A) :
  l1 ≡ₚ l2 → concat (map f l1) ≡ₚ concat (map f l2).
Proof.
  induction 1 as [|x l1 l2 _ IH|x y l|l1 l2 l3 _ IH1 _ IH2]; simpl.
  - done.
  - by rewrite IH.
  - rewrite !app_assoc. by rewrite (Permutation_app_comm (f y) (f x)).
  - by rewrite IH1.
Qed.

Lemma countRules_Permutation (rules1 rules2 : list Rule)
    (res : gmap string Z) :
  rules1 ≡ₚ rules2 → foldl countRule res rules1 = foldl countRule res rules2.
Proof.
  intros Hperm. apply map_eq. intros id. rewrite !countRules_lookup.
  by rewrite (filter_length_Permutation _ _ _ Hperm).
Qed.

(** X5.  The mapping of discovered tests does not depend on the order in
    which the loaded modules are walked (the modules come as a Go map):
    two loads with the same modules in any order give the same
    identifiers with the same counts. *)
Theorem discovery_ignores_module_order E1 E2 (policy : string) :
  loadedModules E1 policy ≡ₚ loadedModules E2 policy →
  getQueryList E1 policy = getQueryList E2 policy.
Proof.
  intros Hperm. unfold getQueryList. rewrite !countModules_concat.
  by apply countRules_Permutation, concat_map_Permutation.
Qed.

Lemma discovery_ignores_module_order_witness :
  getQueryList (sampleEnv (inr duplicatedModules) emptyEngine
                          range_forward range_forward) "policy.rego"
  = getQueryList (sampleEnv (inr (reverse duplicatedModules)) emptyEngine
                            range_forward range_forward) "policy.rego".
Proof.
  apply (discovery_ignores_module_order
           (sampleEnv (inr duplicatedModules) emptyEngine
                      range_forward range_forward)
           (sampleEnv (inr (reverse duplicatedModules)) emptyEngine
                      range_forward range_forward)
           "policy.rego").
  simpl. symmetry. apply reverse_Permutation.
Defined.

(** X6.  The identifiers of the mapping are exactly the identifiers of
    the loaded rules that pass the condition of [getQueryList]: no other
    key appears and no such rule is dropped.  So the mapping is empty
    exactly when no loaded rule passes the condition. *)
Theorem discovered_identifiers_are_those_of_qualifying_rules E
    (policy : string) :
  (∀ id,
     is_Some (getQueryList E policy !! id)
     ↔ ∃ rule, rule ∈ loadedRules E policy ∧ qualifies rule = true
               ∧ testIdentifier (RuleHead rule) = id)
  ∧ (getQueryList E policy = ∅
     ↔ ∀ rule, rule ∈ loadedRules E policy → qualifies rule = false).
Proof.
  assert (∀ id,
     is_Some (getQueryList E policy !! id)
     ↔ ∃ rule, rule ∈ loadedRules E policy ∧ qualifies rule = true
               ∧ testIdentifier (RuleHead rule) = id) as Hdom.
  { intros id. unfold getQueryList, loadedRules.
    rewrite countModules_concat, countRules_lookup, lookup_empty.
    destruct (List.filter (discoveredAs id) _) as [|rule found] eqn:Hf.
    - simpl. split; [by intros [? ?]|].
      intros (rule & Hin & Hq & Hid).
      assert (In rule (List.filter (discoveredAs id)
                (concat (map Rules (loadedModules E policy))))) as Hin'.
      { apply filter_In. rewrite <- list_elem_of_In. split; [done|].
        unfold discoveredAs. rewrite Hq. by apply String.eqb_eq. }
      rewrite Hf in Hin'. destruct Hin'.
    - simpl. split; [intros _|by eexists].
      assert (In rule (List.filter (discoveredAs id)
                (concat (map Rules (loadedModules E policy))))) as Hin'.
      { rewrite Hf. by left. }
      apply filter_In in Hin' as [Hin Hd]. unfold discoveredAs in Hd.
      apply andb_true_iff in Hd as [Hq Hid].
      exists rule. rewrite list_elem_of_In. by apply String.eqb_eq in Hid. }
  split; [done|]. split.
  - intros Hemp rule Hin. destruct (qualifies rule) eqn:Hq; [|done].
    assert (is_Some (getQueryList E policy
                     !! testIdentifier (RuleHead rule))) as [c Hc].
    { apply Hdom. by exists rule. }
    by rewrite Hemp, lookup_empty in Hc.
  - intros Hnone. apply map_eq. intros id. rewrite lookup_empty.
    apply eq_None_not_Some. intros (rule & Hin & Hq & _)%Hdom.
    rewrite (Hnone rule Hin) in Hq. done.
Qed.

(** ** Identifiers *)

Lemma length_append (s t : string) :
  String.length (s +:+ t) = (String.length s + String.length t)%nat.
Proof. induction s as [|c s IH]; simpl; [done|]. by rewrite IH. Qed.

Lemma append_inj_r (s1 s2 t : string) : s1 +:+ t = s2 +:+ t → s1 = s2.
Proof.
  revert s2. induction s1 as [|c s1 IH]; intros [|d s2] Heq; simpl in Heq.
  - done.
  - apply (f_equal String.length) in Heq.
    rewrite !length_append in Heq. simpl in Heq. lia.
  - apply (f_equal String.length) in Heq.
    rewrite !length_append in Heq. simpl in Heq. lia.
  - injection Heq as -> Heq. by rewrite (IH s2 Heq).
Qed.

(** Two texts cut at a character that neither has before the cut. *)
Lemma cut_at_first (c : ascii) (n1 n2 r1 r2 : string) :
  occurs c n1 = false → occurs c n2 = false →
  n1 +:+ String c r1 = n2 +:+ String c r2 → n1 = n2 ∧ r1 = r2.
Proof.
  revert n2. induction n1 as [|a n1 IH]; intros [|b n2] H1 H2 Heq;
    simpl in *.
  - by injection Heq as ->.
  - injection Heq as <- _. by rewrite Ascii.eqb_refl in H2.
  - injection Heq as -> _. by rewrite Ascii.eqb_refl in H1.
  - injection Heq as -> Heq.
    apply orb_false_iff in H1 as [_ H1]. apply orb_false_iff in H2 as [_ H2].
    destruct (IH n2 H1 H2 Heq) as [-> ->]. done.
Qed.

(** X7.  Two rule heads whose names hold no opening bracket get the same
    identifier only if they have the same name and their keys print the
    same: the count of an identifier never mixes rules of different
    names or of keys with different text. *)
Theorem identifier_determines_name_and_key (h1 h2 : Head) :
  occurs "["%char (Name h1) = false →
  occurs "["%char (Name h2) = false →
  testIdentifier h1 = testIdentifier h2 →
  Name h1 = Name h2 ∧ formatKey (Key h1) = formatKey (Key h2).
Proof.
  intros H1 H2 Heq. unfold testIdentifier in Heq.
  change ("[" +:+ ?k) with (String "["%char k) in Heq.
  apply (cut_at_first _ _ _ _ _ H1 H2) in Heq as [Hname Hkey].
  split; [done|]. by apply append_inj_r in Hkey.
Qed.

Lemma identifier_determines_name_and_key_witness :
  Name (MkHead "expect" (Some "<nil>")) = Name (MkHead "expect" None)
  ∧ formatKey (Key (MkHead "expect" (Some "<nil>")))
    = formatKey (Key (MkHead "expect" None)).
Proof.
  apply (identifier_determines_name_and_key
           (MkHead "expect" (Some "<nil>")) (MkHead "expect" None));
    reflexivity.
Defined.

(** ** Merging, beyond the fold *)

Lemma mergedAt_is_Some merge (x y : option Value) :
  is_Some (mergedAt merge x y) ↔ is_Some x ∨ is_Some y.
Proof.
  unfold mergedAt. destruct x as [[]|], y as [[]|]; simpl;
    split; intros H; eauto; destruct H as [[? H]|[? H]]; done.
Qed.

(** X8.  A merge never drops a key and never invents one: the keys of
    the merged document are those of the two documents together. *)
Theorem merge_keeps_every_key (a b : gmap string Value) :
  dom (mergeMaps a b) = dom a ∪ dom b.
Proof.
  apply set_eq. intros k.
  rewrite elem_of_union, !elem_of_dom, mergeMaps_lookup.
  apply mergedAt_is_Some.
Qed.

(** X9.  The empty document is neutral for the merge on both sides, so
    a run with a single values file gets that file's document as it was
    parsed, and a run without values files gets the empty document
    without reading anything. *)
Theorem merge_with_empty_document E (a : gmap string Value)
    (filePath stdin : string) :
  mergeMaps a ∅ = a
  ∧ mergeMaps ∅ a = a
  ∧ mergeValues E [] stdin = (inr ∅, stdin)
  ∧ fst (mergeValues E [filePath] stdin)
    = match fst (readFile E filePath stdin) with
      | inl err => inl err
      | inr bytes =>
          match yamlUnmarshalMap E bytes with
          | inl err =>
              inl (Errorf ("failed to parse " +:+ filePath +:+ ": ") err)
          | inr document => inr document
          end
      end.
Proof.
  assert (∀ b : gmap string Value, mergeMaps ∅ b = b) as Hleft.
  { intros b. apply map_eq. intros k.
    rewrite mergeMaps_lookup, lookup_empty. unfold mergedAt.
    by destruct (b !! k). }
  split; [|split; [|split]].
  - apply map_eq. intros k. rewrite mergeMaps_lookup, lookup_empty.
    unfold mergedAt. by destruct (a !! k) as [[]|].
  - apply Hleft.
  - done.
  - unfold mergeValues. cbn [mergeValuesFrom].
    destruct (readFile E filePath stdin) as [[err|bytes] stdin']; [done|].
    simpl. destruct (yamlUnmarshalMap E bytes); [done|].
    simpl. by rewrite Hleft.
Qed.

(** The depth of a value under a key is below that of the mapping. *)
Lemma depth_lookup (m : gmap string Value) (k : string) (x : Value) :
  m !! k = Some x → (depth x < depth (VMap m))%nat.
Proof.
  intros Hk. cbn [depth]. rewrite map_fold_foldr.
  apply elem_of_map_to_list in Hk.
  induction (map_to_list m) as [|[k0 v0] l IH]; [by apply elem_of_nil in Hk|].
  apply elem_of_cons in Hk as [Heq|Hin]; simpl.
  - injection Heq as <- <-. lia.
  - specialize (IH Hin). lia.
Qed.

Lemma merge_absorbs_below (n : nat) :
  (∀ a : gmap string Value,
     (depth (VMap a) ≤ n)%nat → mergeMaps a a = a)
  ∧ (∀ a b : gmap string Value,
       (depth (VMap b) ≤ n)%nat →
       mergeMaps (mergeMaps a b) b = mergeMaps a b).
Proof.
  induction n as [|n [IHsame IHabs]].
  { split; intros; cbn [depth] in *; lia. }
  assert (∀ a : gmap string Value,
            (depth (VMap a) ≤ S n)%nat → mergeMaps a a = a) as Hsame.
  { intros a Ha. apply map_eq. intros k. rewrite mergeMaps_lookup.
    unfold mergedAt. destruct (a !! k) as [[| | | | |x|]|] eqn:Hk; try done.
    rewrite IHsame; [done|]. apply depth_lookup in Hk. lia. }
  split; [done|].
  intros a b Hb. apply map_eq. intros k. rewrite !mergeMaps_lookup.
  unfold mergedAt.
  destruct (b !! k) as [[| | | | |y|]|] eqn:Hk;
    try by destruct (a !! k) as [[]|].
  assert (depth (VMap y) ≤ n)%nat as Hy.
  { apply depth_lookup in Hk. lia. }
  destruct (a !! k) as [[| | | | |x|]|]; try by rewrite IHsame.
  by rewrite IHabs.
Qed.

(** X10.  Merging a document into itself changes nothing, and merging a
    document in a second time changes nothing either: naming a values
    file twice in a row gives what naming it once gives. *)
Theorem merge_is_idempotent (a b : gmap string Value) :
  mergeMaps a a = a
  ∧ mergeMaps (mergeMaps a b) b = mergeMaps a b.
Proof.
  split.
  - by apply (merge_absorbs_below (depth (VMap a))).
  - by apply (merge_absorbs_below (depth (VMap b))).
Qed.

(** X11.  The second loop of [mergeMaps] ranges over a Go map; in
    whatever order it visits the entries of the incoming document, it
    builds the same merged document. *)
Theorem merge_ignores_iteration_order (order : RangeOrder Value)
    (a b : gmap string Value) :
  foldl (λ out e, mergeEntry mergeInto (fst e) (snd e) out) a (order b)
  = mergeMaps a b.
Proof. apply mergeMaps_any_order, range_perm. Qed.

(** ** Reading the values files *)

Lemma mergeValuesFrom_app E (files more : list string)
    (base : gmap string Value) (stdin : string) :
  mergeValuesFrom E (files ++ more) base stdin
  = match mergeValuesFrom E files base stdin with
    | (inl err, rest) => (inl err, rest)
    | (inr merged, rest) => mergeValuesFrom E more merged rest
    end.
Proof.
  revert base stdin.
  induction files as [|filePath files IH]; intros base stdin; [done|].
  cbn [app mergeValuesFrom].
  destruct (readFile E filePath stdin) as [[err|bytes] stdin']; [done|].
  destruct (yamlUnmarshalMap E bytes) as [err|document]; [done|].
  apply IH.
Qed.

(** X12.  Merging a longer list of values files is merging its
    beginning and going on from there: the files after the beginning are
    merged into what the beginning gave, reading on from where it
    stopped; and when a file of the beginning cannot be read or parsed,
    its error is the result and no later file is read. *)
Theorem merge_of_more_files E (files more : list string) (stdin : string) :
  mergeValues E (files ++ more) stdin
  = match mergeValues E files stdin with
    | (inl err, rest) => (inl err, rest)
    | (inr merged, rest) => mergeValuesFrom E more merged rest
    end.
Proof. apply mergeValuesFrom_app. Qed.






(** ** Normalizing, beyond one file *)

Lemma normalizeFiles_app E (files more : list (string * string))
    (out : gmap string Value) :
  normalizeFiles E (files ++ more) out
  = match normalizeFiles E files out with
    | inl err => inl err
    | inr out' => normalizeFiles E more out'
    end.
Proof.
  revert out. induction files as [|[f t] files IH]; intros out; [done|].
  cbn [app normalizeFiles].
  destruct (normalizeFile E f t out); [done|]. apply IH.
Qed.

(** Where an entry of the result comes from. *)
Lemma normalizeFiles_sources E (files : list (string * string))
    (out out' : gmap string Value) (k : string) (v : Value) :
  normalizeFiles E files out = inr out' →
  out' !! k = Some v →
  out !! k = Some v
  ∨ ∃ fpath template,
      (fpath, template) ∈ files ∧ Base fpath = k
      ∧ normalizedEntry E fpath template = inr (Some v).
Proof.
  revert out. induction files as [|[f t] files IH]; intros out Hrun Hk.
  { injection Hrun as <-. by left. }
  cbn [normalizeFiles] in Hrun.
  destruct (normalizeFile E f t out) as [err|out1] eqn:Hstep; [done|].
  destruct (IH out1 Hrun Hk) as [Hold|(f' & t' & Hin & Hbase & Hentry)].
  - rewrite normalizeFile_entry in Hstep.
    destruct (normalizedEntry E f t) as [err|[w|]] eqn:Hentry; [done| |].
    + injection Hstep as <-.
      destruct (decide (Base f = k)) as [<-|Hne].
      * rewrite lookup_insert_eq in Hold. injection Hold as ->.
        right. exists f, t. split; [apply elem_of_cons; by left|done].
      * rewrite lookup_insert_ne in Hold by done. by left.
    + injection Hstep as <-. by left.
  - right. exists f', t'. split; [apply elem_of_cons; by right|done].
Qed.

Lemma entry_is_not_nil E (fpath template : string) (v : Value) :
  normalizedEntry E fpath template = inr (Some v) → v ≠ VNil.
Proof.
  unfold normalizedEntry. destruct (isYamlPath fpath).
  - destruct (parseAll E _) as [err|configs]; [done|].
    intros Heq. injection Heq as Heq. unfold remaining in Heq.
    destruct (List.filter _ configs) as [|d [|d' rest]] eqn:Hf;
      simpl in Heq; [done| |by injection Heq as <-].
    injection Heq as ->.
    assert (In v (List.filter (λ v, negb (isNil v)) configs)) as Hin.
    { rewrite Hf. by left. }
    apply filter_In in Hin as [_ Hnil]. by destruct v.
  - intros Heq. by injection Heq as <-.
Qed.

(** X14.  Every entry of a normalized manifest comes from a rendered
    file whose base name is its key and is what that file contributes;
    no key is invented, and no stored value is nil. *)
Theorem normalized_entries_come_from_files E
    (rendered : gmap string string) (out : gmap string Value)
    (k : string) (v : Value) :
  UnmarshalYamlMap E rendered = inr out →
  out !! k = Some v →
  v ≠ VNil
  ∧ ∃ fpath template,
      rendered !! fpath = Some template ∧ Base fpath = k
      ∧ normalizedEntry E fpath template = inr (Some v).
Proof.
  intros Hrun Hk. unfold UnmarshalYamlMap in Hrun.
  destruct (normalizeFiles_sources E _ _ _ k v Hrun Hk)
    as [Hold|(f & t & Hin & Hbase & Hentry)].
  { by rewrite lookup_empty in Hold. }
  split; [by eapply entry_is_not_nil|].
  exists f, t. split; [|done].
  rewrite range_perm in Hin. by apply elem_of_map_to_list.
Qed.

Lemma normalized_entries_come_from_files_witness :
  VStr "replicas: 3" ≠ VNil
  ∧ ∃ fpath template,
      sampleRendered !! fpath = Some template
      ∧ Base fpath = "single.yml"
      ∧ normalizedEntry
          (sampleEnv (inr helperModules) emptyEngine
                     range_forward range_forward)
          fpath template
        = inr (Some (VStr "replicas: 3")).
Proof.
  assert (UnmarshalYamlMap
            (sampleEnv (inr helperModules) emptyEngine
                       range_forward range_forward)
            sampleRendered
          = inr sampleNormalized) as Hrun.
  { vm_compute. reflexivity. }
  assert (sampleNormalized !! "single.yml" = Some (VStr "replicas: 3"))
    as Hk.
  { vm_compute. reflexivity. }
  exact (normalized_entries_come_from_files
           (sampleEnv (inr helperModules) emptyEngine
                      range_forward range_forward)
           sampleRendered sampleNormalized "single.yml"
           (VStr "replicas: 3") Hrun Hk).
Defined.

Lemma parseAll_failure E (chunks : list string) (cause : error) :
  parseAll E chunks = inl cause →
  ∃ chunk, chunk ∈ chunks ∧ yamlUnmarshal E chunk = inl cause.
Proof.
  induction chunks as [|c chunks IH]; [done|].
  cbn [parseAll]. destruct (yamlUnmarshal E c) as [err|config] eqn:Hc.
  - intros Heq. injection Heq as ->. exists c.
    split; [apply elem_of_cons; by left|done].
  - destruct (parseAll E chunks) as [err|configs]; [|done].
    intros Heq. injection Heq as ->.
    destruct (IH eq_refl) as (chunk & Hin & Hchunk).
    exists chunk. split; [apply elem_of_cons; by right|done].
Qed.

Lemma parseAll_success E (chunks : list string) :
  (∀ chunk, chunk ∈ chunks → ∃ config, yamlUnmarshal E chunk = inr config) →
  ∃ configs, parseAll E chunks = inr configs.
Proof.
  induction chunks as [|c chunks IH]; intros Hall; [by eexists|].
  cbn [parseAll].
  destruct (Hall c ltac:(apply elem_of_cons; by left)) as [config ->].
  destruct IH as [configs ->]; [|by eexists].
  intros chunk Hin. apply Hall, elem_of_cons. by right.
Qed.

Lemma normalizeFiles_failure E (files : list (string * string))
    (out : gmap string Value) (err : error) :
  normalizeFiles E files out = inl err →
  ∃ fpath template cause,
    (fpath, template) ∈ files
    ∧ normalizedEntry E fpath template = inl cause
    ∧ err = Errorf ("Unmarshal '" +:+ fpath +:+ "' failed: ") cause.
Proof.
  revert out. induction files as [|[f t] files IH]; intros out; [done|].
  cbn [normalizeFiles]. rewrite normalizeFile_entry.
  destruct (normalizedEntry E f t) as [cause|[v|]] eqn:Hentry.
  - intros Heq. injection Heq as <-. exists f, t, cause.
    split; [apply elem_of_cons; by left|done].
  - intros (f' & t' & cause & Hin & H1 & H2)%IH. exists f', t', cause.
    split; [apply elem_of_cons; by right|done].
  - intros (f' & t' & cause & Hin & H1 & H2)%IH. exists f', t', cause.
    split; [apply elem_of_cons; by right|done].
Qed.

Lemma normalizeFiles_success E (files : list (string * string))
    (out : gmap string Value) :
  (∀ fpath template, (fpath, template) ∈ files →
     ∃ entry, normalizedEntry E fpath template = inr entry) →
  ∃ out', normalizeFiles E files out = inr out'.
Proof.
  revert out. induction files as [|[f t] files IH]; intros out Hall.
  { by eexists. }
  cbn [normalizeFiles]. rewrite normalizeFile_entry.
  destruct (Hall f t ltac:(apply elem_of_cons; by left)) as [entry ->].
  destruct entry; apply IH; intros f' t' Hin; apply Hall, elem_of_cons;
    by right.
Qed.

(** X15.  Normalizing fails exactly when some chunk of some [.yml] or
    [.yaml] file does not parse, and its error then names such a file
    and wraps the parser's error for one of its chunks; files of other
    types are never parsed and cannot make it fail. *)
Theorem normalizing_fails_only_on_a_chunk_that_does_not_parse E
    (rendered : gmap string string) :
  ((∃ out, UnmarshalYamlMap E rendered = inr out)
   ↔ ∀ fpath template chunk,
       rendered !! fpath = Some template →
       isYamlPath fpath = true →
       chunk ∈ Split template documentSeparator →
       ∃ config, yamlUnmarshal E chunk = inr config)
  ∧ (∀ err,
       UnmarshalYamlMap E rendered = inl err →
       ∃ fpath template chunk cause,
         rendered !! fpath = Some template
         ∧ isYamlPath fpath = true
         ∧ chunk ∈ Split template documentSeparator
         ∧ yamlUnmarshal E chunk = inl cause
         ∧ err = Errorf ("Unmarshal '" +:+ fpath +:+ "' failed: ") cause).
Proof.
  assert (∀ err,
       UnmarshalYamlMap E rendered = inl err →
       ∃ fpath template chunk cause,
         rendered !! fpath = Some template
         ∧ isYamlPath fpath = true
         ∧ chunk ∈ Split template documentSeparator
         ∧ yamlUnmarshal E chunk = inl cause
         ∧ err = Errorf ("Unmarshal '" +:+ fpath +:+ "' failed: ") cause)
    as Hfail.
  { intros err Hrun. unfold UnmarshalYamlMap in Hrun.
    apply normalizeFiles_failure in Hrun
      as (f & t & cause & Hin & Hentry & ->).
    rewrite range_perm in Hin. apply elem_of_map_to_list in Hin.
    unfold normalizedEntry in Hentry.
    destruct (isYamlPath f) eqn:Hyaml; [|done].
    destruct (parseAll E _) as [cause'|configs] eqn:Hparse; [|done].
    injection Hentry as ->.
    apply parseAll_failure in Hparse as (chunk & Hchunk & Hcause).
    by exists f, t, chunk, cause. }
  split; [|done]. split.
  - intros [out Hrun] f t chunk Hin Hyaml Hchunk.
    destruct (yamlUnmarshal E chunk) as [cause|config] eqn:Hparse;
      [|by eexists].
    exfalso. unfold UnmarshalYamlMap in Hrun.
    assert ((f, t) ∈ rangeFiles E rendered) as Hfile.
    { rewrite range_perm. by apply elem_of_map_to_list. }
    apply list_elem_of_split in Hfile as (pre & post & Hsplit).
    rewrite Hsplit, normalizeFiles_app in Hrun.
    destruct (normalizeFiles E pre ∅) as [err|out1]; [done|].
    cbn [normalizeFiles] in Hrun. rewrite normalizeFile_entry in Hrun.
    unfold normalizedEntry in Hrun. rewrite Hyaml in Hrun.
    destruct (parseAll E (Split t documentSeparator))
      as [err|configs] eqn:Hall; [done|].
    assert (∀ chunks configs',
              parseAll E chunks = inr configs' → chunk ∈ chunks → False)
      as Hno.
    { clear -Hparse. induction chunks as [|c chunks IH]; intros configs'.
      - intros _ Hin. by apply elem_of_nil in Hin.
      - cbn [parseAll]. destruct (yamlUnmarshal E c) eqn:Hc; [done|].
        destruct (parseAll E chunks) eqn:Hrest; [done|].
        intros _ [->|Hin]%elem_of_cons; [congruence|]. by eapply IH. }
    by eapply Hno.
  - intros Hall. unfold UnmarshalYamlMap. apply normalizeFiles_success.
    intros f t Hin. rewrite range_perm in Hin.
    apply elem_of_map_to_list in Hin. unfold normalizedEntry.
    destruct (isYamlPath f) eqn:Hyaml; [|by eexists].
    destruct (parseAll_success E (Split t documentSeparator))
      as [configs ->]; [|by eexists].
    intros chunk Hchunk. by eapply Hall.
Qed.

(** When the files that follow contribute nothing under a name, the
    name keeps what it held. *)
Lemma normalizeFiles_keeps E (files : list (string * string))
    (out out' : gmap string Value) (k : string) :
  normalizeFiles E files out = inr out' →
  (∀ fpath template, (fpath, template) ∈ files → Base fpath = k →
     normalizedEntry E fpath template = inr None) →
  out' !! k = out !! k.
Proof.
  revert out. induction files as [|[f t] files IH]; intros out Hrun Hnone.
  { by injection Hrun as <-. }
  cbn [normalizeFiles] in Hrun.
  destruct (normalizeFile E f t out) as [err|out1] eqn:Hstep; [done|].
  rewrite (IH out1 Hrun);
    [|intros f' t' Hin; apply Hnone, elem_of_cons; by right].
  destruct (decide (Base f = k)) as [Hbase|Hne].
  - rewrite normalizeFile_entry in Hstep.
    rewrite (Hnone f t ltac:(apply elem_of_cons; by left) Hbase) in Hstep.
    by injection Hstep as <-.
  - by apply (normalizeFile_other _ _ _ _ _ _ Hstep).
Qed.

(** X16.  When rendered files share a base name, the entry under that
    name is the contribution of the last of them, in the order the loop
    walks the files, that contributes one: a file overwrites what a file
    walked before it stored, and a later file that contributes nothing
    leaves the entry alone. *)
Theorem last_file_of_a_base_name_wins E (rendered : gmap string string)
    (out : gmap string Value) (pre post : list (string * string))
    (fpath template : string) (v : Value) :
  UnmarshalYamlMap E rendered = inr out →
  rangeFiles E rendered = pre ++ (fpath, template) :: post →
  normalizedEntry E fpath template = inr (Some v) →
  (∀ later text, (later, text) ∈ post → Base later = Base fpath →
     normalizedEntry E later text = inr None) →
  out !! Base fpath = Some v.
Proof.
  intros Hrun Horder Hentry Hpost. unfold UnmarshalYamlMap in Hrun.
  rewrite Horder, normalizeFiles_app in Hrun.
  destruct (normalizeFiles E pre ∅) as [err|out1]; [done|].
  cbn [normalizeFiles] in Hrun. rewrite normalizeFile_entry, Hentry in Hrun.
  rewrite (normalizeFiles_keeps E post _ out (Base fpath) Hrun Hpost).
  apply lookup_insert_eq.
Qed.

Lemma last_file_of_a_base_name_wins_witness :
  ∃ out,
    UnmarshalYamlMap
      (sampleEnv (inr helperModules) emptyEngine range_forward range_forward)
      collidingRendered
    = inr out
    ∧ out !! Base "chart/templates/b/notes.txt" = Some (VStr "second").
Proof.
  assert (∀ later text,
            (later, text) ∈ @nil (string * string) →
            Base later = Base "chart/templates/b/notes.txt" →
            normalizedEntry
              (sampleEnv (inr helperModules) emptyEngine
                         range_forward range_forward)
              later text
            = inr None) as Hpost.
  { intros later text Hin. apply elem_of_nil in Hin. destruct Hin. }
  exists {[ "notes.txt" := VStr "second" ]}.
  assert (UnmarshalYamlMap
            (sampleEnv (inr helperModules) emptyEngine
                       range_forward range_forward)
            collidingRendered
          = inr {[ "notes.txt" := VStr "second" ]}) as Hrun.
  { vm_compute. reflexivity. }
  assert (rangeFiles
            (sampleEnv (inr helperModules) emptyEngine
                       range_forward range_forward)
            collidingRendered
          = [("chart/templates/a/notes.txt", "first")]
            ++ ("chart/templates/b/notes.txt", "second") :: []) as Horder.
  { vm_compute. reflexivity. }
  assert (normalizedEntry
            (sampleEnv (inr helperModules) emptyEngine
                       range_forward range_forward)
            "chart/templates/b/notes.txt" "second"
          = inr (Some (VStr "second"))) as Hentry.
  { vm_compute. reflexivity. }
  split; [exact Hrun|].
  exact (last_file_of_a_base_name_wins
           (sampleEnv (inr helperModules) emptyEngine
                      range_forward range_forward)
           collidingRendered {[ "notes.txt" := VStr "second" ]}
           [("chart/templates/a/notes.txt", "first")] []
           "chart/templates/b/notes.txt" "second" (VStr "second")
           Hrun Horder Hentry Hpost).
Defined.

(** ** The command, from end to end *)

Lemma evalQueryList_nil E policy namespace input
    (queryList : gmap string Z) :
  snd (evalQueryList E policy namespace input queryList) = None
  ↔ queryList ≠ ∅
    ∧ ∀ id c, queryList !! id = Some c →
        c ≤ 1
        ∧ ∃ resultSet trace,
            regoEval E policy (queryStringOf namespace id) input
            = Evaluated resultSet trace
            ∧ passes (queryStringOf namespace id) resultSet = true.
Proof.
  assert (snd (evalQueryList E policy namespace input queryList) = None
          ↔ succeeded (evalQueryList E policy namespace input queryList)
            = true) as ->.
  { unfold succeeded. by destruct (snd _). }
  rewrite evalQueryList_succeeded, !andb_true_iff, negb_true_iff,
    Nat.eqb_neq, map_size_empty_iff, all_passable, all_pass.
  split.
  - intros [[Hall Hne] Hpass]. split; [done|]. intros id c Hid.
    destruct (Hall id c Hid) as [Hc Hev]. split; [done|].
    apply evaluates_true in Hev as (rs & tr & Heng). exists rs, tr.
    split; [done|]. specialize (Hpass id (ex_intro _ c Hid)).
    unfold outcome in Hpass. by rewrite Heng in Hpass.
  - intros [Hne Hall]. split; [split; [|done]|].
    + intros id c Hid. destruct (Hall id c Hid) as (Hc & rs & tr & Heng & _).
      split; [done|]. apply evaluates_true. by exists rs, tr.
    + intros id [c Hid].
      destruct (Hall id c Hid) as (_ & rs & tr & Heng & Hpass).
      unfold outcome. by rewrite Heng.
Qed.

Lemma evalQueryList_error_shape E policy namespace input
    (queryList : gmap string Z) (err : error) :
  snd (evalQueryList E policy namespace input queryList) = Some err →
  err = UnmatchedQuery ∨ err = PolicyFailure ∨ err = DuplicatePolicyFailure
  ∨ ∃ context cause, err = Errorf context cause.
Proof.
  destruct (evalQueryList_cases E policy namespace input queryList)
    as [[_ Hrun]
       |[[Hne Hall]
        |[(pre & id & c & post & _ & _ & _ & Herr & _)
         |(pre & id & c & post & err' & _ & _ & _ & Heng & Herr & _)]]].
  - rewrite Hrun. intros Heq. injection Heq as <-. auto.
  - destruct (evalQueryList_complete E policy namespace input queryList
                Hall Hne) as (-> & _).
    destruct (forallb snd _); [done|]. intros Heq. injection Heq as <-. auto.
  - rewrite Herr. intros Heq. injection Heq as <-. auto.
  - rewrite Herr. intros Heq. injection Heq as <-.
    destruct (regoEval E policy (queryStringOf namespace id) input);
      simpl in Heng; [| |done]; injection Heng as <-; eauto 10.
Qed.

(** X17.  [Execute] returns [InvalidPolicyPath] exactly when the policy
    path is empty or cannot be opened; it has then read no values file,
    rendered nothing, asked the engine nothing and printed nothing.  No
    later stage returns that error. *)
Theorem invalid_policy_path_is_checked_first E (s : EvalCommand)
    (stdin : string) :
  (snd (Execute E s stdin) = Some InvalidPolicyPath
   ↔ Policy s = "" ∨ ∃ err, Open E (Policy s) = inl err)
  ∧ (Policy s = "" ∨ (∃ err, Open E (Policy s) = inl err) →
     Execute E s stdin = (initialState, Some InvalidPolicyPath)).
Proof.
  assert (Policy s = "" ∨ (∃ err, Open E (Policy s) = inl err) →
          Execute E s stdin = (initialState, Some InvalidPolicyPath))
    as Hfirst.
  { unfold Execute. cbn [Policy setDefaults].
    intros [->|[err Hopen]]; [done|].
    destruct (String.eqb (Policy s) ""); [done|]. by rewrite Hopen. }
  split; [|done]. split; [|by intros ->%Hfirst].
  unfold Execute. cbn [Policy Values Template setDefaults].
  destruct (String.eqb_spec (Policy s) "") as [Hempty|Hne]; [by left|].
  destruct (Open E (Policy s)) as [err|[]]; [right; by eexists|].
  destruct (fst (mergeValues E (Values s) stdin)) as [err|valuesConfig];
    [done|].
  destruct (validateAndRender E (Template s) valuesConfig)
    as [err|renderedOutput]; [done|].
  destruct (UnmarshalYamlMap E renderedOutput) as [err|normalized];
    [done|].
  intros Hrun. unfold evalPolicyOnInput in Hrun.
  apply evalQueryList_error_shape in Hrun
    as [Heq|[Heq|[Heq|(context & cause & Heq)]]]; done.
Qed.

(** X18.  [Execute] returns [nil] exactly when the policy file opens,
    the values merge, the chart renders and normalizes, discovery finds
    at least one test, no identifier is counted more than once, and the
    engine answers the query of every test, on the normalized manifests
    with the merged values under [values], with a result set holding an
    expression whose text is the query. *)
Theorem success_needs_every_stage_and_every_test E (s : EvalCommand)
    (stdin : string) :
  snd (Execute E s stdin) = None
  ↔ Policy s ≠ ""
    ∧ Open E (Policy s) = inr tt
    ∧ ∃ valuesConfig renderedOutput normalized,
        fst (mergeValues E (Values s) stdin) = inr valuesConfig
        ∧ validateAndRender E (Template s) valuesConfig = inr renderedOutput
        ∧ UnmarshalYamlMap E renderedOutput = inr normalized
        ∧ getQueryList E (Policy s) ≠ ∅
        ∧ ∀ id c, getQueryList E (Policy s) !! id = Some c →
            c ≤ 1
            ∧ ∃ resultSet trace,
                regoEval E (Policy s)
                         (queryStringOf (Namespace (setDefaults s)) id)
                         (VMap (<[valuesHashName := VMap valuesConfig]>
                                  normalized))
                = Evaluated resultSet trace
                ∧ passes (queryStringOf (Namespace (setDefaults s)) id)
                         resultSet
                  = true.
Proof.
  unfold Execute. cbn [Policy Values Template setDefaults].
  destruct (String.eqb_spec (Policy s) "") as [Hempty|Hne].
  { split; [done|]. by intros [? _]. }
  destruct (Open E (Policy s)) as [err|[]].
  { split; [done|]. by intros (_ & ? & _). }
  destruct (fst (mergeValues E (Values s) stdin))
    as [err|valuesConfig] eqn:Hmerge.
  { split; [done|]. by intros (_ & _ & ? & ? & ? & ? & _). }
  destruct (validateAndRender E (Template s) valuesConfig)
    as [err|renderedOutput] eqn:Hrender.
  { split; [done|].
    intros (_ & _ & v & r & n & Hv & Hr & _).
    injection Hv as <-. by rewrite Hrender in Hr. }
  destruct (UnmarshalYamlMap E renderedOutput)
    as [err|normalized] eqn:Hnormal.
  { split; [done|].
    intros (_ & _ & v & r & n & Hv & Hr & Hn & _).
    injection Hv as <-. rewrite Hrender in Hr. injection Hr as <-.
    by rewrite Hnormal in Hn. }
  unfold evalPolicyOnInput. rewrite evalQueryList_nil. split.
  - intros [Hne' Hall]. split; [done|]. split; [done|].
    by exists valuesConfig, renderedOutput, normalized.
  - intros (_ & _ & v & r & n & Hv & Hr & Hn & Hne' & Hall).
    injection Hv as <-. rewrite Hrender in Hr. injection Hr as <-.
    rewrite Hnormal in Hn. by injection Hn as <-.
Qed.

(** X19.  Every query [Execute] hands to the engine is
    [data.<namespace>.<id>] for a discovered test [id], where the
    namespace is the one of the command, or [main] when the command
    names none. *)
Theorem queries_use_the_namespace_or_main E (s : EvalCommand)
    (stdin : string) (call : string * Value) :
  call ∈ engineCalls (fst (Execute E s stdin)) →
  ∃ id,
    is_Some (getQueryList E (Policy s) !! id)
    ∧ fst call
      = "data."
        +:+ (if String.eqb (Namespace s) "" then "main" else Namespace s)
        +:+ "." +:+ id.
Proof.
  unfold Execute. cbn [Policy Values Template Namespace setDefaults].
  destruct (String.eqb (Policy s) ""); [by intros ?%elem_of_nil|].
  destruct (Open E (Policy s)); [by intros ?%elem_of_nil|].
  destruct (fst (mergeValues E (Values s) stdin)) as [err|valuesConfig];
    [by intros ?%elem_of_nil|].
  destruct (validateAndRender E (Template s) valuesConfig)
    as [err|renderedOutput]; [by intros ?%elem_of_nil|].
  destruct (UnmarshalYamlMap E renderedOutput) as [err|normalized];
    [by intros ?%elem_of_nil|].
  rewrite evalPolicyOnInput_calls.
  intros (id & -> & Hid)%list_elem_of_fmap.
  exists id. split; [|done]. by eapply visited_discovered.
Qed.

Lemma queries_use_the_namespace_or_main_witness :
  ∃ id,
    is_Some (getQueryList
               (sampleEnv (inr twoTestModules)
                          (engineOf ["data.main.expect[a]"])
                          range_forward range_forward)
               (Policy sampleCommand) !! id)
    ∧ fst ("data.main.expect[a]", sampleInput)
      = "data."
        +:+ (if String.eqb (Namespace sampleCommand) "" then "main"
             else Namespace sampleCommand)
        +:+ "." +:+ id.
Proof.
  assert (("data.main.expect[a]", sampleInput)
          ∈ engineCalls
              (fst (Execute (sampleEnv (inr twoTestModules)
                                       (engineOf ["data.main.expect[a]"])
                                       range_forward range_forward)
                            sampleCommand ""))) as Hcall.
  { vm_compute. apply list_elem_of_here. }
  exact (queries_use_the_namespace_or_main
           (sampleEnv (inr twoTestModules)
                      (engineOf ["data.main.expect[a]"])
                      range_forward range_forward)
           sampleCommand "" ("data.main.expect[a]", sampleInput) Hcall).
Defined.

(** X20.  [setDefaults] settles the command once and for all: applying
    it again changes nothing.  After it the namespace is never empty and
    a writer is always set; without the verbose flag the writer is the
    discard buffer, even when the caller supplied one; template, values,
    policy and the flag are left as they were. *)
Theorem defaults_are_settled_once (s : EvalCommand) :
  setDefaults (setDefaults s) = setDefaults s
  ∧ Namespace (setDefaults s) ≠ ""
  ∧ is_Some (Writer (setDefaults s))
  ∧ (Verbose s = false → Writer (setDefaults s) = Some DiscardBuffer)
  ∧ (Verbose s = true → is_Some (Writer s) →
     Writer (setDefaults s) = Writer s)
  ∧ (Namespace s ≠ "" → Namespace (setDefaults s) = Namespace s)
  ∧ (Template (setDefaults s), Values (setDefaults s),
     Policy (setDefaults s), Verbose (setDefaults s))
    = (Template s, Values s, Policy s, Verbose s).
Proof.
  destruct s as [writer template values policy namespace verbose].
  unfold setDefaults. simpl.
  destruct (String.eqb_spec namespace "") as [->|Hne].
  - repeat split; try done.
    + by destruct verbose, writer.
    + destruct verbose, writer; by eexists.
    + by intros ->.
    + intros -> [w ->]. done.
  - assert (String.eqb namespace "" = false) as Hn
      by by apply String.eqb_neq.
    rewrite Hn. repeat split; try done.
    + by destruct verbose, writer.
    + destruct verbose, writer; by eexists.
    + by intros ->.
    + intros -> [w ->]. done.
Qed.
